(** * A voxel sandbox: world map, terrain generation and click edits

    Shallow embedding of [src/components/MinecraftGame.tsx] (module [Game])
    and of the second variant of the same component kept in the repository
    (module [Part000]).

    Conventions of the embedding.
    - The refs of the React component ([worldRef], [blocksGroupRef], ...) and
      its two pieces of React state are the fields of one record; every
      callback is a function from the record to the record.
    - [worldRef] is a [Map<string, Block>]: a [gmap string Block].
    - A JS number held in a block position is an exact rational ([Q]); the
      loop counters of the terrain generator are integers ([Z]).
    - The pose ([mouseRef]) and the terrain noise use [Math.PI], [Math.sin]
      and [Math.cos]; these are read over the real numbers ([R]).
    - The camera position moved by [updatePlayerMovement] is kept in
      binary64 arithmetic, as primitive floats.
    - React runs the effect of the component again when [isPointerLocked]
      or [currentBlockType] has changed; [Game_deliver] and
      [Part000_deliver] are the handlers followed by that run.
    - [THREE.Raycaster.intersectObjects] is library code: the list of
      intersections it returns is an argument of [handleClick]. *)

From Stdlib Require Import Floats.
From Stdlib Require Import ZArith QArith Qround Qabs Reals Lra Lia Ascii String.
From stdpp Require Import gmap strings list fin_maps pretty.

Local Open Scope string_scope.
Local Open Scope Z_scope.

(** ** Block types and blocks *)

Inductive BlockType := AIR | GRASS | DIRT | STONE | WOOD.

#[global] Instance BlockType_eq_dec : EqDecision BlockType.
Proof. solve_decision. Defined.

(** [THREE.Vector3], restricted to the three coordinates. *)
Record Vector3 := mkVector3 { vx : Q; vy : Q; vz : Q }.

Record Block := mkBlock { type : BlockType; position : Vector3 }.

(** [new THREE.Vector3(x, y, z)] for integer loop counters. *)
Definition Vector3_of_Z (x y z : Z) : Vector3 :=
  mkVector3 (inject_Z x) (inject_Z y) (inject_Z z).

(** The chain [.copy(p).add(n).floor().addScalar(0.5)], one method each. *)
Definition Vector3_add (a b : Vector3) : Vector3 :=
  mkVector3 (vx a + vx b)%Q (vy a + vy b)%Q (vz a + vz b)%Q.

Definition Vector3_floor (a : Vector3) : Vector3 :=
  mkVector3 (inject_Z (Qfloor (vx a))) (inject_Z (Qfloor (vy a)))
            (inject_Z (Qfloor (vz a))).

Definition Vector3_addScalar (a : Vector3) (s : Q) : Vector3 :=
  mkVector3 (vx a + s)%Q (vy a + s)%Q (vz a + s)%Q.

(** [a.equals(b)]: the three coordinates compared as numbers. *)
Definition Vector3_equals (a b : Vector3) : bool :=
  Qeq_bool (vx a) (vx b) && Qeq_bool (vy a) (vy b) && Qeq_bool (vz a) (vz b).

(** ** Numbers in template strings

    [`${x},${y},${z}`] applies Number::toString to each coordinate. The
    function below prints the sign, the integer part in decimal and, when the
    number is not an integer, a dot and the digits of the fraction. It is
    Number::toString on the integers and on the numbers [n + 0.5], the two
    kinds of coordinate the component builds keys from. *)

Fixpoint fraction_digits (fuel : nat) (f : Q) : string :=
  match fuel with
  | O => ""
  | S fuel' =>
      if Qeq_bool f 0 then ""
      else
        let t := (f * 10)%Q in
        let d := Qfloor t in
        String (pretty_N_char (Z.to_N d))
               (fraction_digits fuel' (t - inject_Z d)%Q)
  end.

Definition Number_toString (q : Q) : string :=
  let a := Qabs q in
  let n := Qfloor a in
  let f := (a - inject_Z n)%Q in
  (if Qlt_le_dec q 0 then "-" else "")
    +:+ pretty n
    +:+ (if Qeq_bool f 0 then ""
         else "." +:+ fraction_digits (Pos.size_nat (Qden q)) f).

(** [`${x},${y},${z}`] *)
Definition key_of (x y z : Q) : string :=
  Number_toString x +:+ "," +:+ Number_toString y +:+ "," +:+ Number_toString z.

Definition position_key (p : Vector3) : string :=
  key_of (vx p) (vy p) (vz p).

(** The key written by the terrain loops, whose counters are integers. *)
Definition key_of_Z (x y z : Z) : string :=
  key_of (inject_Z x) (inject_Z y) (inject_Z z).

(** ** Characters of a key *)

Fixpoint occurs (c : ascii) (s : string) : bool :=
  match s with
  | EmptyString => false
  | String a s' => bool_decide (a = c) || occurs c s'
  end.

Definition is_digit (c : ascii) : Prop := ∃ n, pretty_N_char n = c.

(** ** Counting loops *)

(** [for (let i = lo; i <= hi; i++) s = body(i, s)] *)
Definition for_range {St : Type} (lo hi : Z) (body : Z → St → St) (s : St) : St :=
  foldl (λ s i, body i s) s (seqZ lo (hi - lo + 1)).

(** ** The scene graph and the component state *)

(** [BLOCK_COLORS]: no entry for [AIR]. *)
Definition BLOCK_COLORS (t : BlockType) : option Z :=
  match t with
  | AIR => None
  | GRASS => Some 0x4caf50
  | DIRT => Some 0x8d6e63
  | STONE => Some 0x607d8b
  | WOOD => Some 0xa0522d
  end.

(** A [THREE.Mesh] of a unit box: the colour of its material, its position
    and the block kept in [userData] (second variant only). *)
Record Mesh := mkMesh {
  material_color : option Z;
  mesh_position : Vector3;
  userData_block : option Block }.

(** One entry of [raycaster.intersectObjects(...)]. *)
Record Intersection := mkIntersection {
  point : Vector3;
  face_normal : option Vector3;   (* [face?.normal] *)
  object : Mesh }.

(** The refs and the React state. A ref whose [current] is an opaque
    library object is kept as the flag "is set". *)
Record Game := mkGame {
  sceneRef : bool;
  cameraRef : bool;
  raycasterRef : bool;
  worldRef : gmap string Block;
  blocksGroupRef : option (list Mesh);
  keysRef : gmap string bool;
  currentBlockType : BlockType;
  isPointerLocked : bool }.

Definition with_world (w : gmap string Block) (g : Game) : Game :=
  mkGame (sceneRef g) (cameraRef g) (raycasterRef g) w (blocksGroupRef g)
         (keysRef g) (currentBlockType g) (isPointerLocked g).

Definition with_blocksGroup (c : option (list Mesh)) (g : Game) : Game :=
  mkGame (sceneRef g) (cameraRef g) (raycasterRef g) (worldRef g) c
         (keysRef g) (currentBlockType g) (isPointerLocked g).

Definition with_keys (k : gmap string bool) (g : Game) : Game :=
  mkGame (sceneRef g) (cameraRef g) (raycasterRef g) (worldRef g)
         (blocksGroupRef g) k (currentBlockType g) (isPointerLocked g).

Definition setCurrentBlockType (t : BlockType) (g : Game) : Game :=
  mkGame (sceneRef g) (cameraRef g) (raycasterRef g) (worldRef g)
         (blocksGroupRef g) (keysRef g) t (isPointerLocked g).

Definition setIsPointerLocked (b : bool) (g : Game) : Game :=
  mkGame (sceneRef g) (cameraRef g) (raycasterRef g) (worldRef g)
         (blocksGroupRef g) (keysRef g) (currentBlockType g) b.

(** The component before its first effect runs. *)
Definition initial : Game :=
  mkGame false false false ∅ None ∅ GRASS false.

(** [blocksGroupRef.current.add(mesh)]; the callers have checked the ref. *)
Definition group_add (mesh : Mesh) (g : Game) : Game :=
  match blocksGroupRef g with
  | Some children => with_blocksGroup (Some (children ++ [mesh])%list) g
  | None => g
  end.

(** [children.find(child => child.position.equals(position))] *)
Definition find_mesh (position : Vector3) (children : list Mesh) : option Mesh :=
  List.find (λ child, Vector3_equals (mesh_position child) position) children.

(** [group.remove(mesh)] for the mesh that [find_mesh] returned: the first
    child at that position leaves the list. *)
Fixpoint remove_found (position : Vector3) (children : list Mesh) : list Mesh :=
  match children with
  | [] => []
  | child :: rest =>
      if Vector3_equals (mesh_position child) position then rest
      else child :: remove_found position rest
  end.

(** [keysRef.current[code]] read as a condition: [undefined] is falsy. *)
Definition key_held (code : string) (g : Game) : bool :=
  match keysRef g !! code with Some b => b | None => false end.

(** The terrain noise [Math.floor(Math.sin(x * 0.1) * Math.cos(z * 0.1) * 3)]. *)
Definition noise (x z : Z) : Z :=
  Zfloor (sin (IZR x * 0.1) * cos (IZR z * 0.1) * 3)%R.

(** ** [MinecraftGame.tsx] *)

Module Game.

(** [createBlockMesh(blockType)]: a fresh mesh at the origin. *)
Definition createBlockMesh (blockType : BlockType) : Mesh :=
  mkMesh (BLOCK_COLORS blockType) (mkVector3 0 0 0) None.

(** [mesh.position.copy(position)] *)
Definition position_copy (mesh : Mesh) (position : Vector3) : Mesh :=
  mkMesh (material_color mesh) position (userData_block mesh).

(** The classification of the block at level [y] of a column. *)
Definition blockTypeAt (y height : Z) : BlockType :=
  if (y =? height) && (height >? 1) then GRASS
  else if (y >=? height - 2) && (height >? 1) then DIRT
  else STONE.

(** The body of the innermost loop. *)
Definition placeTerrainBlock (x y z height : Z) (g : Game) : Game :=
  let blockType := blockTypeAt y height in
  let position := Vector3_of_Z x y z in
  let block := mkBlock blockType position in
  let key := key_of_Z x y z in
  let g := with_world (<[key := block]> (worldRef g)) g in
  let mesh := position_copy (createBlockMesh blockType) position in
  group_add mesh g.

(** [generateTerrain] with the column height and the loop bounds as
    arguments. *)
Definition generateTerrainWith (height : Z → Z → Z) (xmin xmax zmin zmax : Z)
    (g : Game) : Game :=
  match blocksGroupRef g with
  | None => g
  | Some _ =>
      let g := with_world ∅ g in
      let g := with_blocksGroup (Some []) g in
      for_range xmin xmax (λ x,
        for_range zmin zmax (λ z,
          let height := height x z in
          for_range 0 height (λ y, placeTerrainBlock x y z height))) g
  end.

(** [Math.floor(Math.sin(x * 0.1) * Math.cos(z * 0.1) * 3) + 2] *)
Definition height (x z : Z) : Z := noise x z + 2.

Definition generateTerrain (g : Game) : Game :=
  generateTerrainWith height (-20) 20 (-20) 20 g.

Definition initScene (mounted : bool) (g : Game) : Game :=
  if negb mounted then g
  else
    generateTerrain
      (mkGame true true true (worldRef g) (Some []) (keysRef g)
              (currentBlockType g) (isPointerLocked g)).

Definition removeBlockMesh (position : Vector3) (g : Game) : Game :=
  let key := position_key position in
  match worldRef g !! key, blocksGroupRef g with
  | Some block, Some children =>
      let g :=
        match find_mesh position children with
        | Some meshToRemove =>
            with_blocksGroup (Some (remove_found position children)) g
        | None => g
        end in
      with_world (delete key (worldRef g)) g
  | _, _ => g
  end.

(** The position computed for a right click. *)
Definition newPosition (point normal : Vector3) : Vector3 :=
  Vector3_addScalar (Vector3_floor (Vector3_add point normal)) (1 # 2).

Definition handleClick (button : Z) (intersects : list Intersection)
    (g : Game) : Game :=
  if negb (isPointerLocked g) || negb (raycasterRef g) || negb (cameraRef g)
     || negb (bool_decide (is_Some (blocksGroupRef g)))
  then g
  else
    match intersects with
    | [] => g
    | intersect :: _ =>
        match face_normal intersect with
        | None => g
        | Some normal =>
            if button =? 0 then
              let blockPosition := mesh_position (object intersect) in
              removeBlockMesh blockPosition g
            else if button =? 2 then
              let newPosition := newPosition (point intersect) normal in
              let key := position_key newPosition in
              if bool_decide (is_Some (worldRef g !! key)) then g
              else
                let block := mkBlock (currentBlockType g) newPosition in
                let g := with_world (<[key := block]> (worldRef g)) g in
                let mesh :=
                  position_copy (createBlockMesh (currentBlockType g))
                                newPosition in
                group_add mesh g
            else g
        end
    end.

Definition handleKeyDown (code : string) (g : Game) : Game :=
  let g := with_keys (<[code := true]> (keysRef g)) g in
  let g := if key_held "Digit1" g then setCurrentBlockType GRASS g else g in
  let g := if key_held "Digit2" g then setCurrentBlockType DIRT g else g in
  let g := if key_held "Digit3" g then setCurrentBlockType STONE g else g in
  let g := if key_held "Digit4" g then setCurrentBlockType WOOD g else g in
  g.

Definition handleKeyUp (code : string) (g : Game) : Game :=
  with_keys (<[code := false]> (keysRef g)) g.

Definition requestPointerLock (mounted : bool) (g : Game) : Game :=
  if mounted then setIsPointerLocked true g else g.

Definition handlePointerLockChange (locked : bool) (g : Game) : Game :=
  setIsPointerLocked locked g.

(** What the browser and React deliver to the component. *)
Inductive Event :=
| Effect (mounted : bool)
| MouseDown (button : Z) (intersects : list Intersection)
| KeyDown (code : string)
| KeyUp (code : string)
| OverlayClick (mounted : bool)
| PointerLockChange (locked : bool).

Definition step (e : Event) (g : Game) : Game :=
  match e with
  | Effect mounted => initScene mounted g
  | MouseDown button intersects => handleClick button intersects g
  | KeyDown code => handleKeyDown code g
  | KeyUp code => handleKeyUp code g
  | OverlayClick mounted => requestPointerLock mounted g
  | PointerLockChange locked => handlePointerLockChange locked g
  end.

Inductive reachable : Game → Prop :=
| reachable_initial : reachable initial
| reachable_step e g : reachable g → reachable (step e g).

End Game.

(** ** The second variant of the component *)

Module Part000.

(** [createBlockMesh(block)] builds the mesh, keeps the block in its
    [userData] and adds it to the group. *)
Definition createBlockMesh (block : Block) (g : Game) : Game :=
  match blocksGroupRef g with
  | None => g
  | Some _ =>
      let mesh :=
        mkMesh (BLOCK_COLORS (type block)) (position block) (Some block) in
      group_add mesh g
  end.

Definition blockTypeAt (y height : Z) : BlockType :=
  if y =? height then GRASS
  else if y >=? height - 2 then DIRT
  else STONE.

Definition placeTerrainBlock (x y z height : Z) (g : Game) : Game :=
  let blockType := blockTypeAt y height in
  let position := Vector3_of_Z x y z in
  let block := mkBlock blockType position in
  let key := key_of_Z x y z in
  let g := with_world (<[key := block]> (worldRef g)) g in
  createBlockMesh block g.

Definition generateTerrainWith (height : Z → Z → Z) (xmin xmax zmin zmax : Z)
    (g : Game) : Game :=
  match blocksGroupRef g with
  | None => g
  | Some _ =>
      let g := with_world ∅ g in
      let g := with_blocksGroup (Some []) g in
      for_range xmin xmax (λ x,
        for_range zmin zmax (λ z,
          let height := height x z in
          for_range 0 height (λ y, placeTerrainBlock x y z height))) g
  end.

(** [Math.floor(Math.sin(x * 0.1) * Math.cos(z * 0.1) * 3) + 5] *)
Definition height (x z : Z) : Z := noise x z + 5.

Definition generateTerrain (g : Game) : Game :=
  generateTerrainWith height (-20) 20 (-20) 20 g.

Definition initScene (mounted : bool) (g : Game) : Game :=
  if negb mounted then g
  else
    generateTerrain
      (mkGame true true true (worldRef g) (Some []) (keysRef g)
              (currentBlockType g) (isPointerLocked g)).

Definition removeBlockMesh (position : Vector3) (g : Game) : Game :=
  match blocksGroupRef g with
  | None => g
  | Some children =>
      match find_mesh position children with
      | Some mesh => with_blocksGroup (Some (remove_found position children)) g
      | None => g
      end
  end.

(** [clickedBlock.position.clone().add(face.normal)] *)
Definition newPosition (clicked normal : Vector3) : Vector3 :=
  Vector3_add clicked normal.

(** [intersects] is the result of the raycast against the children of the
    group; without a group the ray is cast against [[]] and meets nothing.
    A hit mesh without a block in its [userData] makes
    [clickedBlock.position] throw before anything is written: the handler
    leaves the state as it was. *)
Definition handleClick (button : Z) (intersects : list Intersection)
    (g : Game) : Game :=
  if negb (isPointerLocked g) || negb (raycasterRef g) || negb (cameraRef g)
     || negb (sceneRef g)
  then g
  else
    let intersects :=
      match blocksGroupRef g with
      | Some children => intersects
      | None => []
      end in
    match intersects with
    | [] => g
    | intersect :: _ =>
        if button =? 0 then
          match userData_block (object intersect) with
          | None => g
          | Some clickedBlock =>
              let key := position_key (position clickedBlock) in
              let g := with_world (delete key (worldRef g)) g in
              removeBlockMesh (position clickedBlock) g
          end
        else if button =? 2 then
          match face_normal intersect with
          | None => g
          | Some normal =>
              match userData_block (object intersect) with
              | None => g
              | Some clickedBlock =>
                  let newPosition := newPosition (position clickedBlock) normal in
                  let key := position_key newPosition in
                  if bool_decide (is_Some (worldRef g !! key)) then g
                  else
                    let newBlock := mkBlock (currentBlockType g) newPosition in
                    let g := with_world (<[key := newBlock]> (worldRef g)) g in
                    createBlockMesh newBlock g
              end
          end
        else g
    end.

(** [blockTypeMap[event.code]] *)
Definition blockTypeMap (code : string) : option BlockType :=
  if bool_decide (code = "Digit1") then Some GRASS
  else if bool_decide (code = "Digit2") then Some DIRT
  else if bool_decide (code = "Digit3") then Some STONE
  else if bool_decide (code = "Digit4") then Some WOOD
  else None.

Definition handleKeyDown (code : string) (g : Game) : Game :=
  let g := with_keys (<[code := true]> (keysRef g)) g in
  match blockTypeMap code with
  | Some t => setCurrentBlockType t g
  | None => g
  end.

Definition handleKeyUp (code : string) (g : Game) : Game :=
  with_keys (<[code := false]> (keysRef g)) g.

(** The state is set only when the lock request is rejected. *)
Definition requestPointerLock (mounted rejected : bool) (g : Game) : Game :=
  if mounted && rejected then setIsPointerLocked true g else g.

Definition handlePointerLockChange (locked : bool) (g : Game) : Game :=
  setIsPointerLocked locked g.

Inductive Event :=
| Effect (mounted : bool)
| MouseDown (button : Z) (intersects : list Intersection)
| KeyDown (code : string)
| KeyUp (code : string)
| OverlayClick (mounted rejected : bool)
| PointerLockChange (locked : bool).

Definition step (e : Event) (g : Game) : Game :=
  match e with
  | Effect mounted => initScene mounted g
  | MouseDown button intersects => handleClick button intersects g
  | KeyDown code => handleKeyDown code g
  | KeyUp code => handleKeyUp code g
  | OverlayClick mounted rejected => requestPointerLock mounted rejected g
  | PointerLockChange locked => handlePointerLockChange locked g
  end.

Inductive reachable : Game → Prop :=
| reachable_initial : reachable initial
| reachable_step e g : reachable g → reachable (step e g).

End Part000.

(** ** Orientation: [handleMouseMove]

    [mouseRef.current] is the pair (yaw, pitch); the camera rotation is a
    copy of it. [event.movementX || 0] is the movement itself whenever it
    is a number, so the handler takes the two movements as reals. *)

Record Mouse := mkMouse { mouse_x : R; mouse_y : R }.

Record Look := mkLook {
  mouseRef : Mouse;
  rotation_y : R;
  rotation_x : R }.

Definition Look_initial : Look := mkLook (mkMouse 0 0) 0 0.

(** [Math.max(-Math.PI / 2, Math.min(Math.PI / 2, y))] *)
Definition clampPitch (y : R) : R := Rmax (- PI / 2) (Rmin (PI / 2) y).

Definition handleMouseMove (isPointerLocked cameraRef : bool)
    (movementX movementY : R) (l : Look) : Look :=
  if negb isPointerLocked || negb cameraRef then l
  else
    let x := (mouse_x (mouseRef l) - movementX * 0.002)%R in
    let y := (mouse_y (mouseRef l) - movementY * 0.002)%R in
    let y := clampPitch y in
    mkLook (mkMouse x y) x y.

(** A pointer event together with the two guards read when it arrives. *)
Record MouseMove := mkMouseMove {
  mm_locked : bool;
  mm_camera : bool;
  movementX : R;
  movementY : R }.

Definition look_after (events : list MouseMove) (l : Look) : Look :=
  foldl (λ l e, handleMouseMove (mm_locked e) (mm_camera e)
                                (movementX e) (movementY e) l) l events.

(** ** Vocabulary of the statements *)

(** The block the terrain loops write for the cell [(x, y, z)]. *)
Definition terrain_block (classify : Z → Z → BlockType) (height : Z → Z → Z)
    (x y z : Z) : Block :=
  mkBlock (classify y (height x z)) (Vector3_of_Z x y z).

(** The map holds the blocks [blk x y z] of the cells in [C], each under
    its own key, and nothing else. *)
Definition holds_cells (blk : Z → Z → Z → Block) (C : Z → Z → Z → Prop)
    (w : gmap string Block) : Prop :=
  ∀ k b, w !! k = Some b ↔
         ∃ x y z, C x y z ∧ k = key_of_Z x y z ∧ b = blk x y z.

(** The cells of the columns inside the bounds. *)
Definition in_terrain (height : Z → Z → Z) (xmin xmax zmin zmax : Z)
    (x y z : Z) : Prop :=
  xmin ≤ x ≤ xmax ∧ zmin ≤ z ≤ zmax ∧ 0 ≤ y ≤ height x z.

(** A state in which every ref is set, the group and the world are empty
    and the pointer is locked. *)
Definition scene_ready : Game :=
  mkGame true true true ∅ (Some []) ∅ GRASS true.

(** Two states with the same world and the same meshes. *)
Definition same_blocks (g1 g2 : Game) : Prop :=
  worldRef g1 = worldRef g2 ∧ blocksGroupRef g1 = blocksGroupRef g2.

(** A ready state that still holds a block and its mesh from earlier play. *)
Definition scene_stale : Game :=
  mkGame true true true
    {[ key_of_Z 9 9 9 := mkBlock WOOD (Vector3_of_Z 9 9 9) ]}
    (Some [mkMesh (BLOCK_COLORS WOOD) (Vector3_of_Z 9 9 9) None])
    ∅ WOOD true.

(** Every stored block has a type other than [AIR] and sits under the key of
    its own position. *)
Definition well_keyed (w : gmap string Block) : Prop :=
  ∀ k b, w !! k = Some b → type b ≠ AIR ∧ k = position_key (position b).

(** The invariant of the component state. *)
Definition Inv (g : Game) : Prop :=
  well_keyed (worldRef g) ∧ currentBlockType g ≠ AIR.

(** What one click can do to the world map. *)
Definition edit_outcome (t : BlockType) (w w' : gmap string Block) : Prop :=
  w' = w
  ∨ (∃ p, is_Some (w !! position_key p) ∧ w' = delete (position_key p) w)
  ∨ (∃ p, w !! position_key p = None
          ∧ w' = <[position_key p := mkBlock t p]> w).

(** ** Scenes used in the examples *)

(** The component after its effect has run once. *)
Definition Game_mounted : Game := Game.step (Game.Effect true) initial.

(** A world with the single block [(0, 0, 0)], in each variant. *)
Definition origin_block : Block := mkBlock STONE (Vector3_of_Z 0 0 0).

Definition Game_single : Game :=
  mkGame true true true {[ key_of_Z 0 0 0 := origin_block ]}
    (Some [Game.position_copy (Game.createBlockMesh STONE) (Vector3_of_Z 0 0 0)])
    ∅ GRASS true.

Definition Part000_single : Game :=
  mkGame true true true {[ key_of_Z 0 0 0 := origin_block ]}
    (Some [mkMesh (BLOCK_COLORS STONE) (Vector3_of_Z 0 0 0) (Some origin_block)])
    ∅ GRASS true.

(** The first intersection of the ray from [(0, 5, 0)] along [(0, -1, 0)]
    with the unit box centred at the origin: the point [(0, 0.5, 0)] of its
    top face, whose normal is [(0, 1, 0)]. *)
Definition hit_top (mesh : Mesh) : Intersection :=
  mkIntersection (mkVector3 0 (1 # 2) 0) (Some (mkVector3 0 1 0)) mesh.

Definition Game_hit_top : Intersection :=
  hit_top (Game.position_copy (Game.createBlockMesh STONE) (Vector3_of_Z 0 0 0)).

Definition Part000_hit_top : Intersection :=
  hit_top (mkMesh (BLOCK_COLORS STONE) (Vector3_of_Z 0 0 0) (Some origin_block)).

(** ** The cells of the terrain, in the order of the loops *)

(** The triples [(x, y, z)] visited by the three nested loops: [x] outermost,
    then [z], then [y] from [0] to the height of the column. *)
Definition terrain_cells (height : Z → Z → Z) (xmin xmax zmin zmax : Z)
    : list (Z * Z * Z) :=
  x ← seqZ xmin (xmax - xmin + 1);
  z ← seqZ zmin (zmax - zmin + 1);
  y ← seqZ 0 (height x z - 0 + 1);
  [(x, y, z)].

(** The mesh each variant adds for the terrain cell [(x, y, z)]. *)
Definition Game_terrain_mesh (height : Z → Z → Z) (c : Z * Z * Z) : Mesh :=
  let '(x, y, z) := c in
  mkMesh (BLOCK_COLORS (Game.blockTypeAt y (height x z))) (Vector3_of_Z x y z)
         None.

Definition Part000_terrain_mesh (height : Z → Z → Z) (c : Z * Z * Z) : Mesh :=
  let '(x, y, z) := c in
  let block := mkBlock (Part000.blockTypeAt y (height x z)) (Vector3_of_Z x y z) in
  mkMesh (BLOCK_COLORS (type block)) (position block) (Some block).

(** ** Scene and world in agreement *)

(** A coordinate of the grid: an integer, or an integer plus one half,
    written with denominator 1 or 2. *)
Definition on_grid (q : Q) : Prop :=
  Qden q = 1%positive ∨ (Qden q = 2%positive ∧ Z.odd (Qnum q) = true).

Definition Vector3_on_grid (p : Vector3) : Prop :=
  on_grid (vx p) ∧ on_grid (vy p) ∧ on_grid (vz p).

(** A vector with integer coordinates, such as the normal of a box face. *)
Definition Vector3_integer (p : Vector3) : Prop :=
  Qden (vx p) = 1%positive ∧ Qden (vy p) = 1%positive ∧ Qden (vz p) = 1%positive.

Definition mesh_key (m : Mesh) : string := position_key (mesh_position m).

(** The children of the group show the world [w]: no two meshes share a
    key; every mesh stands on the grid at the position of a stored block,
    has the colour of its type and, when [ud] is set, carries that block in
    its [userData]; every stored block has its mesh. *)
Definition shows (ud : bool) (w : gmap string Block) (children : list Mesh)
    : Prop :=
  NoDup (mesh_key <$> children)
  ∧ (∀ m, m ∈ children →
       Vector3_on_grid (mesh_position m)
       ∧ ∃ b, w !! mesh_key m = Some b
              ∧ position b = mesh_position m
              ∧ material_color m = BLOCK_COLORS (type b)
              ∧ userData_block m = (if ud then Some b else None))
  ∧ (∀ k b, w !! k = Some b → ∃ m, m ∈ children ∧ mesh_key m = k).

(** Without a group the world is empty; with one, the group shows it. *)
Definition Synced (ud : bool) (g : Game) : Prop :=
  match blocksGroupRef g with
  | None => worldRef g = ∅
  | Some children => shows ud (worldRef g) children
  end.

(** [intersectObjects(children)] returns hits of meshes of the group. *)
Definition hits_group (g : Game) (intersects : list Intersection) : Prop :=
  ∀ i, i ∈ intersects →
       ∃ children, blocksGroupRef g = Some children ∧ object i ∈ children.

(** The faces of a box have normals with integer coordinates. *)
Definition integer_normals (intersects : list Intersection) : Prop :=
  ∀ i n, i ∈ intersects → face_normal i = Some n → Vector3_integer n.

(** States reached by events whose clicks carry hits of the current
    group. *)
Inductive Game_played : Game → Prop :=
| Game_played_initial : Game_played initial
| Game_played_click button intersects g :
    Game_played g → hits_group g intersects →
    Game_played (Game.handleClick button intersects g)
| Game_played_other e g :
    Game_played g →
    (∀ button intersects, e ≠ Game.MouseDown button intersects) →
    Game_played (Game.step e g).

Inductive Part000_played : Game → Prop :=
| Part000_played_initial : Part000_played initial
| Part000_played_click button intersects g :
    Part000_played g → hits_group g intersects → integer_normals intersects →
    Part000_played (Part000.handleClick button intersects g)
| Part000_played_other e g :
    Part000_played g →
    (∀ button intersects, e ≠ Part000.MouseDown button intersects) →
    Part000_played (Part000.step e g).

(** The second variant after its effect has run once. *)
Definition Part000_mounted : Game := Part000.step (Part000.Effect true) initial.

(** ** Movement: [updatePlayerMovement] (the second variant's
    [updateMovement] is the same code)

    The coordinates of the camera position and of the direction vectors
    are JS numbers: IEEE 754 binary64 values, each operation rounded to
    nearest, ties to even. These are the primitive floats, with the same
    operations. [camera.getWorldDirection] is library code that reads the
    rotation of the camera and never its position; the function below
    moves the position and never the rotation, so its four calls return one
    and the same vector, the argument [worldDirection]. *)

Set Warnings "-inexact-float".

Record Vec3f := mkVec3f {
  fx : PrimFloat.float; fy : PrimFloat.float; fz : PrimFloat.float }.

Record Camera := mkCamera { camera_position : Vec3f; camera_up : Vec3f }.

(** [v.multiplyScalar(s)] *)
Definition Vec3f_multiplyScalar (v : Vec3f) (s : PrimFloat.float) : Vec3f :=
  mkVec3f (fx v * s)%float (fy v * s)%float (fz v * s)%float.

(** [a.cross(b)] *)
Definition Vec3f_cross (a b : Vec3f) : Vec3f :=
  mkVec3f (fy a * fz b - fz a * fy b)%float
          (fz a * fx b - fx a * fz b)%float
          (fx a * fy b - fy a * fx b)%float.

(** [camera.position.add(v)] *)
Definition camera_position_add (v : Vec3f) (camera : Camera) : Camera :=
  mkCamera (mkVec3f (fx (camera_position camera) + fx v)%float
                    (fy (camera_position camera) + fy v)%float
                    (fz (camera_position camera) + fz v)%float)
           (camera_up camera).

(** [camera.position.y += d] and [camera.position.y -= d] *)
Definition camera_position_y_add (d : PrimFloat.float) (camera : Camera)
    : Camera :=
  mkCamera (mkVec3f (fx (camera_position camera))
                    (fy (camera_position camera) + d)%float
                    (fz (camera_position camera)))
           (camera_up camera).

Definition camera_position_y_sub (d : PrimFloat.float) (camera : Camera)
    : Camera :=
  mkCamera (mkVec3f (fx (camera_position camera))
                    (fy (camera_position camera) - d)%float
                    (fz (camera_position camera)))
           (camera_up camera).

Definition updatePlayerMovement (worldDirection : Vec3f) (g : Game)
    (camera : Camera) : Camera :=
  if negb (cameraRef g) then camera
  else
    let speed := 0.1%float in
    let camera :=
      if key_held "KeyW" g then
        camera_position_add (Vec3f_multiplyScalar worldDirection speed) camera
      else camera in
    let camera :=
      if key_held "KeyS" g then
        camera_position_add (Vec3f_multiplyScalar worldDirection (- speed))
                            camera
      else camera in
    let camera :=
      if key_held "KeyA" g then
        camera_position_add
          (Vec3f_multiplyScalar (Vec3f_cross worldDirection (camera_up camera))
                                (- speed)) camera
      else camera in
    let camera :=
      if key_held "KeyD" g then
        camera_position_add
          (Vec3f_multiplyScalar (Vec3f_cross worldDirection (camera_up camera))
                                speed) camera
      else camera in
    let camera :=
      if key_held "Space" g then camera_position_y_add speed camera
      else camera in
    let camera :=
      if key_held "ShiftLeft" g then camera_position_y_sub speed camera
      else camera in
    camera.

(** Equal as JS numbers under SameValueZero: equal under [===], where the
    two zeros are equal, or both NaN. *)
Definition SameValueZero (a b : PrimFloat.float) : bool :=
  (a =? b)%float || (PrimFloat.is_nan a && PrimFloat.is_nan b).

(** The three stages of a tick: the tests of [KeyW] and [KeyS], of [KeyA]
    and [KeyD], of [Space] and [ShiftLeft], each on the flags "is held". *)
Definition move_forward (worldDirection : Vec3f) (w s : bool)
    (camera : Camera) : Camera :=
  let camera :=
    if w then
      camera_position_add (Vec3f_multiplyScalar worldDirection 0.1) camera
    else camera in
  if s then
    camera_position_add (Vec3f_multiplyScalar worldDirection (- 0.1)) camera
  else camera.

Definition move_strafe (worldDirection : Vec3f) (a d : bool)
    (camera : Camera) : Camera :=
  let camera :=
    if a then
      camera_position_add
        (Vec3f_multiplyScalar (Vec3f_cross worldDirection (camera_up camera))
                              (- 0.1)) camera
    else camera in
  if d then
    camera_position_add
      (Vec3f_multiplyScalar (Vec3f_cross worldDirection (camera_up camera))
                            0.1) camera
  else camera.

Definition move_vertical (up down : bool) (camera : Camera) : Camera :=
  let camera := if up then camera_position_y_add 0.1 camera else camera in
  if down then camera_position_y_sub 0.1 camera else camera.

(** A binary64 zero of either sign; and the same number, or two zeros. *)
Definition float_zero (a : PrimFloat.float) : Prop :=
  ∃ s, Prim2SF a = S754_zero s.

Definition float_same (a b : PrimFloat.float) : Prop :=
  a = b ∨ (float_zero a ∧ float_zero b).

(** The default camera: at [(0, 10, 0)] with the up vector [(0, 1, 0)];
    its world direction is [(0, 0, -1)]. *)
Definition camera_default : Camera :=
  mkCamera (mkVec3f 0 10 0) (mkVec3f 0 1 0).

Definition direction_default : Vec3f := mkVec3f 0 0 (-1).

(** A vector over the real numbers. *)
Record Vec3 := mkVec3 { cx : R; cy : R; cz : R }.

(** Two states that differ at most in the world and the group. *)
Definition same_controls (g g' : Game) : Prop :=
  sceneRef g' = sceneRef g ∧ cameraRef g' = cameraRef g
  ∧ raycasterRef g' = raycasterRef g ∧ keysRef g' = keysRef g
  ∧ currentBlockType g' = currentBlockType g
  ∧ isPointerLocked g' = isPointerLocked g.

(** [camera.position.set(0, 10, 0)] in [initScene]. *)
Definition camera_start : Vec3 := mkVec3 0 10 0.

(** ** The terrain loops, pass by pass *)



(** ** Events as the component receives them

    The effect of the component lists [handleMouseMove] and [handleClick]
    among its dependencies. React re-creates these two callbacks when
    [isPointerLocked] or [currentBlockType] has changed and then runs the
    effect again, that is [initScene] (the clean-up of the effect touches
    the listeners and the canvas only). No other dependency of the effect
    ever changes. From the first commit on, [mountRef.current] is the [div]
    of the component. *)

Definition effect_reruns (g g' : Game) : bool :=
  negb (bool_decide (isPointerLocked g' = isPointerLocked g)
        && bool_decide (currentBlockType g' = currentBlockType g)).

Definition Game_deliver (e : Game.Event) (g : Game) : Game :=
  let g' := Game.step e g in
  if effect_reruns g g' then Game.initScene true g' else g'.

Definition Part000_deliver (e : Part000.Event) (g : Game) : Game :=
  let g' := Part000.step e g in
  if effect_reruns g g' then Part000.initScene true g' else g'.

(** A session: the events delivered one after the other to the mounted
    component. *)
Definition Game_session (events : list Game.Event) : Game :=
  foldl (λ g e, Game_deliver e g) Game_mounted events.

Definition Part000_session (events : list Part000.Event) : Game :=
  foldl (λ g e, Part000_deliver e g) Part000_mounted events.

(** The mounted component once the pointer is locked: by a click on the
    overlay in [MinecraftGame.tsx], by the [pointerlockchange] event that
    follows it in the second variant. *)
Definition Game_locked : Game := Game_session [Game.OverlayClick true].

Definition Part000_locked : Game :=
  Part000_session [Part000.PointerLockChange true].

(** The centre of the top face of the terrain block [(0, 2, 0)], the top of
    the column under the camera in [MinecraftGame.tsx]: what the raycaster
    returns first for a camera looking straight down. *)
Definition Game_hit_column_top : Intersection :=
  mkIntersection (mkVector3 0 (5 # 2) 0) (Some (mkVector3 0 1 0))
                 (Game_terrain_mesh Game.height (0, 2, 0)).

(** Every stored block is a block of the generated terrain or has the
    selected type. *)
Definition terrain_or_selected (classify : Z → Z → BlockType)
    (height : Z → Z → Z) (g : Game) : Prop :=
  ∀ k b, worldRef g !! k = Some b →
    type b = currentBlockType g
    ∨ ∃ x y z, in_terrain height (-20) 20 (-20) 20 x y z
               ∧ b = terrain_block classify height x y z.

(** ** Orientation across runs of the effect

    [mouseRef] is created once and never reset. [initScene] stores a new
    camera in [cameraRef], and the rotation of a new camera is
    [(0, 0, 0)]. *)

Inductive LookEvent :=
| Pointer (move : MouseMove)     (* a [mousemove] event *)
| SceneInit.                     (* [initScene] with a mount point *)

Definition Look_initScene (l : Look) : Look := mkLook (mouseRef l) 0 0.

Definition Look_step (e : LookEvent) (l : Look) : Look :=
  match e with
  | Pointer move =>
      handleMouseMove (mm_locked move) (mm_camera move)
                      (movementX move) (movementY move) l
  | SceneInit => Look_initScene l
  end.

Definition Look_run (events : list LookEvent) (l : Look) : Look :=
  foldl (λ l e, Look_step e l) l events.

(** The pointer events of a run, in order. *)
Definition pointer_moves (events : list LookEvent) : list MouseMove :=
  omap (λ e, match e with Pointer move => Some move | SceneInit => None end)
       events.

(** The camera shows the pose, or is a new camera. *)
Definition shows_pose (l : Look) : Prop :=
  rotation_y l = mouse_x (mouseRef l) ∧ rotation_x l = mouse_y (mouseRef l).

Definition new_camera (l : Look) : Prop :=
  rotation_y l = 0%R ∧ rotation_x l = 0%R.

(** * Facts *)

(** ** Keys *)

Example key_of_Z_ex : key_of_Z (-20) 0 7 = "-20,0,7".
Proof. vm_compute. reflexivity. Qed.

Example key_of_half_ex : key_of (1 # 2) (3 # 2) (-1 # 2) = "0.5,1.5,-0.5".
Proof. vm_compute. reflexivity. Qed.

Example key_of_quarter_ex : Number_toString (-13 # 4) = "-3.25".
Proof. vm_compute. reflexivity. Qed.

Lemma append_cons a (s t : string) : String a s +:+ t = String a (s +:+ t).
Proof. reflexivity. Qed.

Lemma append_empty_r (s : string) : s +:+ "" = s.
Proof. induction s as [|a s IH]; [done|]. by rewrite append_cons, IH. Qed.

Lemma occurs_app c s1 s2 :
  occurs c (s1 +:+ s2) = occurs c s1 || occurs c s2.
Proof.
  induction s1 as [|a s1 IH]; [done|].
  rewrite append_cons. simpl. rewrite IH. by rewrite orb_assoc.
Qed.

Lemma occurs_pretty_N_go c x s :
  ¬ is_digit c → occurs c (pretty_N_go x s) = occurs c s.
Proof.
  intros Hc. revert s.
  induction (N.lt_wf_0 x) as [x _ IH]; intros s.
  destruct (decide (x = 0)%N) as [->|Hx]; [done|].
  rewrite pretty_N_go_step by lia.
  rewrite IH by (apply N.div_lt; lia). simpl.
  rewrite bool_decide_eq_false_2; [done|].
  intros E. apply Hc. by eexists.
Qed.

Lemma occurs_pretty_N c (x : N) : ¬ is_digit c → occurs c (pretty x) = false.
Proof.
  intros Hc. unfold pretty, pretty_N. case_decide.
  - simpl. rewrite bool_decide_eq_false_2; [done|].
    intros E. apply Hc. by exists 0%N.
  - by rewrite occurs_pretty_N_go.
Qed.

Lemma occurs_pretty_Z c (x : Z) :
  ¬ is_digit c → c ≠ "-"%char → occurs c (pretty x) = false.
Proof.
  intros Hc Hm. destruct x as [|p|p]; unfold pretty, pretty_Z.
  - simpl. rewrite bool_decide_eq_false_2; [done|].
    intros E. apply Hc. by exists 0%N.
  - by apply (occurs_pretty_N c (N.pos p)).
  - simpl. rewrite bool_decide_eq_false_2 by congruence.
    by apply (occurs_pretty_N c (N.pos p)).
Qed.

Lemma comma_not_digit : ¬ is_digit ","%char.
Proof. intros [n Hn]. unfold pretty_N_char in Hn. by repeat case_match. Qed.

Lemma dot_not_digit : ¬ is_digit "."%char.
Proof. intros [n Hn]. unfold pretty_N_char in Hn. by repeat case_match. Qed.

(** Two strings cut at their first [c] agree piecewise. *)
Lemma app_sep_inj c s1 s2 r1 r2 :
  occurs c s1 = false → occurs c s2 = false →
  s1 +:+ String c r1 = s2 +:+ String c r2 → s1 = s2 ∧ r1 = r2.
Proof.
  revert s2. induction s1 as [|a s1 IH]; intros [|b s2];
    rewrite ?append_cons; change ("" +:+ ?s) with s; simpl.
  - intros _ _ [= ->]. done.
  - intros _ Hb [= <- _]. rewrite bool_decide_eq_true_2 in Hb; done.
  - intros Ha _ [= -> _]. rewrite bool_decide_eq_true_2 in Ha; done.
  - intros Ha Hb [= -> E].
    apply orb_false_iff in Ha as [_ Ha]. apply orb_false_iff in Hb as [_ Hb].
    destruct (IH s2 Ha Hb E) as [-> ->]. done.
Qed.

(** Number::toString of an integer is its decimal numeral. *)
Lemma Number_toString_Z (z : Z) : Number_toString (inject_Z z) = pretty z.
Proof.
  unfold Number_toString.
  assert (Hf : Qeq_bool (Qabs (inject_Z z) - inject_Z (Qfloor (Qabs (inject_Z z)))) 0 = true).
  { apply Qeq_bool_iff. unfold Qabs, Qfloor, inject_Z, Qminus, Qplus, Qopp, Qeq. simpl.
    rewrite Z.div_1_r. lia. }
  rewrite Hf. clear Hf.
  destruct z as [|p|p]; simpl.
  - done.
  - unfold Qfloor. simpl. rewrite Z.div_1_r.
    change (pretty (Z.pos p) +:+ "" = pretty (Z.pos p)).
    apply append_empty_r.
  - unfold Qfloor. simpl. rewrite Z.div_1_r.
    change (String "-" (pretty (Z.pos p) +:+ "") = String "-" (pretty (Z.pos p))).
    f_equal. apply append_empty_r.
Qed.

Lemma key_of_Z_pretty x y z :
  key_of_Z x y z = pretty x +:+ "," +:+ pretty y +:+ "," +:+ pretty z.
Proof. unfold key_of_Z, key_of. by rewrite !Number_toString_Z. Qed.

(** Distinct integer cells have distinct keys. *)
Lemma key_of_Z_inj x y z x' y' z' :
  key_of_Z x y z = key_of_Z x' y' z' → x = x' ∧ y = y' ∧ z = z'.
Proof.
  rewrite !key_of_Z_pretty. intros E.
  assert (Hc : ∀ n : Z, occurs "," (pretty n) = false).
  { intros n. apply occurs_pretty_Z; [apply comma_not_digit|done]. }
  apply (app_sep_inj "," (pretty x) (pretty x')) in E as [Ex E]; [|done..].
  apply (app_sep_inj "," (pretty y) (pretty y')) in E as [Ey Ez]; [|done..].
  by apply (inj pretty) in Ex, Ey, Ez.
Qed.

(** An integer key has no dot. *)
Lemma occurs_dot_key_of_Z x y z : occurs "." (key_of_Z x y z) = false.
Proof.
  rewrite key_of_Z_pretty, !occurs_app. simpl.
  rewrite !occurs_pretty_Z; first done; first [apply dot_not_digit | done].
Qed.

(** Number::toString of [n + 0.5] has a dot. *)
Lemma occurs_dot_half (n : Z) :
  occurs "." (Number_toString (inject_Z n + (1 # 2))) = true.
Proof.
  unfold Number_toString.
  set (q := (inject_Z n + (1 # 2))%Q).
  assert (Hf : Qeq_bool (Qabs q - inject_Z (Qfloor (Qabs q))) 0 = false).
  { apply not_true_iff_false. intros E. apply Qeq_bool_iff in E.
    unfold q, Qabs, Qfloor, inject_Z, Qminus, Qplus, Qopp, Qeq in E. simpl in E.
    pose proof (Z.div_mod (Z.abs (n * 2 + 1)) 2 ltac:(lia)).
    pose proof (Z.mod_pos_bound (Z.abs (n * 2 + 1)) 2 ltac:(lia)).
    lia. }
  rewrite Hf, !occurs_app. simpl. by rewrite !orb_true_r.
Qed.

(** ** Loops *)

Lemma for_range_empty {St : Type} lo hi (body : Z → St → St) s :
  hi < lo → for_range lo hi body s = s.
Proof.
  intros H. unfold for_range.
  replace (seqZ lo (hi - lo + 1)) with (@nil Z); [done|].
  symmetry. apply seqZ_nil. lia.
Qed.

Lemma for_range_snoc {St : Type} lo hi (body : Z → St → St) s :
  lo ≤ hi + 1 →
  for_range lo (hi + 1) body s = body (hi + 1) (for_range lo hi body s).
Proof.
  intros H. unfold for_range.
  replace (hi + 1 - lo + 1) with ((hi - lo + 1) + 1) by lia.
  rewrite seqZ_app by lia. rewrite foldl_app.
  rewrite (seqZ_cons _ 1), (seqZ_nil _ (Z.pred 1)) by lia. simpl.
  f_equal. lia.
Qed.

(** Loop invariant indexed by the counter: [P i s] holds on entry to the
    iteration for [i], and [P (hi + 1) s] on exit. *)
Lemma for_range_ind {St : Type} (P : Z → St → Prop) lo hi (body : Z → St → St) s :
  lo ≤ hi + 1 →
  P lo s →
  (∀ i s, lo ≤ i ≤ hi → P i s → P (i + 1) (body i s)) →
  P (hi + 1) (for_range lo hi body s).
Proof.
  intros Hle H0 Hstep.
  assert (Hn : ∀ n : nat, lo - 1 + Z.of_nat n ≤ hi →
            P (lo + Z.of_nat n) (for_range lo (lo - 1 + Z.of_nat n) body s)).
  { induction n as [|n IH]; intros Hb.
    - rewrite for_range_empty by lia. by replace (lo + Z.of_nat 0) with lo by lia.
    - replace (lo - 1 + Z.of_nat (S n)) with (lo - 1 + Z.of_nat n + 1) by lia.
      rewrite for_range_snoc by lia.
      replace (lo + Z.of_nat (S n)) with ((lo - 1 + Z.of_nat n + 1) + 1) by lia.
      apply Hstep; [lia|].
      replace (lo - 1 + Z.of_nat n + 1) with (lo + Z.of_nat n) by lia.
      apply IH. lia. }
  specialize (Hn (Z.to_nat (hi + 1 - lo))).
  replace (lo - 1 + Z.of_nat (Z.to_nat (hi + 1 - lo))) with hi in Hn by lia.
  replace (lo + Z.of_nat (Z.to_nat (hi + 1 - lo))) with (hi + 1) in Hn by lia.
  apply Hn. lia.
Qed.

Lemma for_range_inv {St : Type} (P : St → Prop) lo hi (body : Z → St → St) s :
  P s → (∀ i s, lo ≤ i ≤ hi → P s → P (body i s)) → P (for_range lo hi body s).
Proof.
  intros H0 Hstep. destruct (decide (hi < lo)) as [Hlt|Hge].
  - by rewrite for_range_empty.
  - apply (for_range_ind (λ _, P)); [lia|done|done].
Qed.


(** ** The world written by the terrain loops *)

Lemma holds_cells_empty blk : holds_cells blk (λ _ _ _, False) ∅.
Proof.
  intros k b. rewrite lookup_empty. split; [done|].
  intros (x & y & z & [] & _).
Qed.

Lemma holds_cells_ext blk (C C' : Z → Z → Z → Prop) w :
  (∀ x y z, C x y z ↔ C' x y z) → holds_cells blk C w → holds_cells blk C' w.
Proof.
  intros HC H k b. rewrite (H k b).
  split; intros (x & y & z & Hc & Hk); exists x, y, z; by rewrite (HC x y z) in *.
Qed.

Lemma holds_cells_insert blk (C : Z → Z → Z → Prop) w x y z :
  holds_cells blk C w →
  holds_cells blk (λ x' y' z', C x' y' z' ∨ (x' = x ∧ y' = y ∧ z' = z))
              (<[key_of_Z x y z := blk x y z]> w).
Proof.
  intros H k b. rewrite lookup_insert. case_decide as Hk.
  - subst k. split.
    + intros [= <-]. exists x, y, z. auto.
    + intros (x' & y' & z' & _ & Hk & ->).
      apply key_of_Z_inj in Hk as (-> & -> & ->). done.
  - rewrite (H k b). split.
    + intros (x' & y' & z' & Hc & Hk' & Hb). exists x', y', z'. auto.
    + intros (x' & y' & z' & [Hc | (-> & -> & ->)] & Hk' & Hb); [|done].
      exists x', y', z'. auto.
Qed.

(** A loop whose iteration [i] adds the cells [D i] adds their union. *)
Lemma for_range_cells blk (D : Z → Z → Z → Z → Prop) lo hi
    (body : Z → Game → Game) :
  (∀ i C g, lo ≤ i ≤ hi → holds_cells blk C (worldRef g) →
     holds_cells blk (λ x y z, C x y z ∨ D i x y z) (worldRef (body i g))) →
  ∀ C g, holds_cells blk C (worldRef g) →
     holds_cells blk (λ x y z, C x y z ∨ ∃ i, lo ≤ i ≤ hi ∧ D i x y z)
                 (worldRef (for_range lo hi body g)).
Proof.
  intros Hbody C g Hg. destruct (decide (hi < lo)) as [Hlt|Hge].
  - rewrite for_range_empty by done.
    eapply holds_cells_ext; [|exact Hg].
    intros x y z. split; [auto|]. intros [?|(i & ? & _)]; [done|lia].
  - apply (holds_cells_ext blk
      (λ x y z, C x y z ∨ ∃ i, lo ≤ i < hi + 1 ∧ D i x y z)).
    { intros x y z. split; (intros [?|(i & ? & ?)]; [auto|right; exists i; split; [lia|done]]). }
    apply (for_range_ind (λ j g, holds_cells blk
      (λ x y z, C x y z ∨ ∃ i, lo ≤ i < j ∧ D i x y z) (worldRef g))); [lia| |].
    + eapply holds_cells_ext; [|exact Hg].
      intros x y z. split; [auto|]. intros [?|(i & ? & _)]; [done|lia].
    + intros i s Hi Hs. eapply holds_cells_ext; [|apply (Hbody i _ s Hi Hs)].
      intros x y z. simpl. split.
      * intros [[?|(i' & ? & ?)]|?]; [auto| |].
        -- right. exists i'. split; [lia|done].
        -- right. exists i. split; [lia|done].
      * intros [?|(i' & ? & ?)]; [auto|].
        destruct (decide (i' = i)) as [->|]; [auto|].
        left. right. exists i'. split; [lia|done].
Qed.

Section Columns.
Context (classify : Z → Z → BlockType) (height : Z → Z → Z).
Context (body : Z → Z → Z → Z → Game → Game).
Hypothesis body_world : ∀ x y z h g,
  worldRef (body x y z h g)
  = <[key_of_Z x y z := mkBlock (classify y h) (Vector3_of_Z x y z)]>
      (worldRef g).

Let blk := terrain_block classify height.

Lemma column_cells x z C g :
  holds_cells blk C (worldRef g) →
  holds_cells blk
    (λ x' y' z', C x' y' z' ∨ (x' = x ∧ z' = z ∧ 0 ≤ y' ≤ height x z))
    (worldRef (for_range 0 (height x z) (λ y, body x y z (height x z)) g)).
Proof.
  intros Hg.
  eapply holds_cells_ext;
    [|apply (for_range_cells blk (λ y x' y' z', x' = x ∧ y' = y ∧ z' = z));
      [|exact Hg]].
  - intros x' y' z'. simpl. split.
    + intros [?|(i & ? & -> & -> & ->)]; auto.
    + intros [?|(-> & -> & ?)]; [auto|]. right. exists y'. auto.
  - intros y C' g' Hy Hg'. rewrite body_world.
    apply (holds_cells_insert blk C' (worldRef g') x y z Hg').
Qed.

Lemma columns_cells xmin xmax zmin zmax g :
  holds_cells blk (λ _ _ _, False) (worldRef g) →
  holds_cells blk (in_terrain height xmin xmax zmin zmax)
    (worldRef
       (for_range xmin xmax (λ x,
          for_range zmin zmax (λ z,
            let height := height x z in
            for_range 0 height (λ y, body x y z height))) g)).
Proof.
  intros Hg.
  eapply holds_cells_ext;
    [|apply (for_range_cells blk
               (λ x x' y' z', x' = x ∧ zmin ≤ z' ≤ zmax ∧ 0 ≤ y' ≤ height x' z'));
      [|exact Hg]].
  - intros x y z. unfold in_terrain. split.
    + intros [[]|(i & ? & -> & ? & ?)]. auto.
    + intros (? & ? & ?). right. exists x. auto.
  - intros x C g' Hx Hg'.
    eapply holds_cells_ext;
      [|apply (for_range_cells blk
                 (λ z x' y' z', x' = x ∧ z' = z ∧ 0 ≤ y' ≤ height x z));
        [|exact Hg']].
    + intros x' y' z'. simpl. split.
      * intros [?|(i & ? & -> & -> & ?)]; auto.
      * intros [?|(-> & ? & ?)]; [auto|]. right. exists z'. auto.
    + intros z C' g'' Hz Hg''. simpl. by apply column_cells.
Qed.
End Columns.

(** ** Field bookkeeping *)

Lemma worldRef_group_add mesh g : worldRef (group_add mesh g) = worldRef g.
Proof. unfold group_add. by destruct (blocksGroupRef g). Qed.

Lemma currentBlockType_group_add mesh g :
  currentBlockType (group_add mesh g) = currentBlockType g.
Proof. unfold group_add. by destruct (blocksGroupRef g). Qed.

Lemma blocksGroupRef_group_add mesh g :
  is_Some (blocksGroupRef g) → is_Some (blocksGroupRef (group_add mesh g)).
Proof. unfold group_add. intros [c Hc]. rewrite Hc. simpl. eauto. Qed.

Lemma worldRef_Part000_createBlockMesh block g :
  worldRef (Part000.createBlockMesh block g) = worldRef g.
Proof.
  unfold Part000.createBlockMesh. destruct (blocksGroupRef g); [|done].
  apply worldRef_group_add.
Qed.

Lemma currentBlockType_Part000_createBlockMesh block g :
  currentBlockType (Part000.createBlockMesh block g) = currentBlockType g.
Proof.
  unfold Part000.createBlockMesh. destruct (blocksGroupRef g); [|done].
  apply currentBlockType_group_add.
Qed.

(** ** The terrain of each variant *)

Lemma Game_terrain_cells height xmin xmax zmin zmax g :
  is_Some (blocksGroupRef g) →
  holds_cells (terrain_block Game.blockTypeAt height)
              (in_terrain height xmin xmax zmin zmax)
              (worldRef (Game.generateTerrainWith height xmin xmax zmin zmax g)).
Proof.
  intros [c Hc]. unfold Game.generateTerrainWith. rewrite Hc.
  apply (columns_cells Game.blockTypeAt height Game.placeTerrainBlock).
  - intros x y z h g'. unfold Game.placeTerrainBlock.
    by rewrite worldRef_group_add.
  - apply holds_cells_empty.
Qed.

Lemma Part000_terrain_cells height xmin xmax zmin zmax g :
  is_Some (blocksGroupRef g) →
  holds_cells (terrain_block Part000.blockTypeAt height)
              (in_terrain height xmin xmax zmin zmax)
              (worldRef (Part000.generateTerrainWith height xmin xmax zmin zmax g)).
Proof.
  intros [c Hc]. unfold Part000.generateTerrainWith. rewrite Hc.
  apply (columns_cells Part000.blockTypeAt height Part000.placeTerrainBlock).
  - intros x y z h g'. unfold Part000.placeTerrainBlock.
    by rewrite worldRef_Part000_createBlockMesh.
  - apply holds_cells_empty.
Qed.

(** Every cell of the terrain is stored under its own key. *)
Lemma holds_cells_lookup blk (C : Z → Z → Z → Prop) w x y z :
  holds_cells blk C w → C x y z → w !! key_of_Z x y z = Some (blk x y z).
Proof. intros H Hc. apply H. exists x, y, z. auto. Qed.

(** A column without cells has no stored block. *)
Lemma holds_cells_lookup_None blk (C : Z → Z → Z → Prop) w x y z :
  holds_cells blk C w → ¬ C x y z → w !! key_of_Z x y z = None.
Proof.
  intros H Hc. destruct (w !! key_of_Z x y z) as [b|] eqn:E; [|done].
  apply H in E as (x' & y' & z' & Hc' & Hk & _).
  apply key_of_Z_inj in Hk as (-> & -> & ->). done.
Qed.

(** ** The noise *)

Lemma noise_bounds x z : -3 ≤ noise x z ≤ 3.
Proof.
  unfold noise.
  set (s := sin (IZR x * 0.1)). set (c := cos (IZR z * 0.1)).
  pose proof (SIN_bound (IZR x * 0.1)) as Hs.
  pose proof (COS_bound (IZR z * 0.1)) as Hc.
  fold s in Hs. fold c in Hc.
  assert (-1 <= s * c <= 1)%R as Hp by nra.
  split.
  - apply Zfloor_lub. lra.
  - apply le_IZR. pose proof (Zfloor_bound (s * c * 3)). lra.
Qed.

Lemma Game_blockTypeAt_spec y h :
  (h ≤ 1 → Game.blockTypeAt y h = STONE) ∧
  (Game.blockTypeAt y h = GRASS ↔ y = h ∧ 1 < h) ∧
  (Game.blockTypeAt y h = DIRT ↔ h - 2 ≤ y ∧ y ≠ h ∧ 1 < h) ∧
  (Game.blockTypeAt y h = STONE ↔ h ≤ 1 ∨ (y < h - 2 ∧ y ≠ h)).
Proof.
  unfold Game.blockTypeAt.
  destruct (Z.eqb_spec y h), (Z.gtb_spec h 1), (Z.geb_spec y (h - 2)); simpl;
    repeat split; intros; try done; try lia;
    repeat match goal with H : _ ∧ _ |- _ => destruct H end; try lia.
Qed.

Lemma Part000_blockTypeAt_spec y h :
  (Part000.blockTypeAt y h = GRASS ↔ y = h) ∧
  (Part000.blockTypeAt y h = DIRT ↔ h - 2 ≤ y ∧ y ≠ h) ∧
  (Part000.blockTypeAt y h = STONE ↔ y < h - 2 ∧ y ≠ h).
Proof.
  unfold Part000.blockTypeAt.
  destruct (Z.eqb_spec y h), (Z.geb_spec y (h - 2)); simpl;
    repeat split; intros; try done; try lia;
    repeat match goal with H : _ ∧ _ |- _ => destruct H end; try lia.
Qed.

Lemma sin_1_bounds : (5 / 6 <= sin 1 <= 101 / 120)%R.
Proof.
  assert (Hpi : (1 <= PI)%R) by (pose proof PI2_3_2; lra).
  destruct (sin_bound 1 0 ltac:(lra) Hpi) as [Hlo Hhi].
  unfold sin_approx, sin_term in Hlo, Hhi. simpl in Hlo, Hhi. lra.
Qed.

(** The noise at the column [(-10, 0)] is [-3], and stays [-3] for every
    value within a quarter of the exact product: the rounding of the
    double-precision operations cannot change it. *)
Lemma noise_m10_0_stable (v : R) :
  (Rabs (v - sin (IZR (-10) * 0.1) * cos (IZR 0 * 0.1) * 3) <= 1 / 4)%R →
  Zfloor v = -3.
Proof.
  replace (IZR (-10) * 0.1)%R with (Ropp 1) by lra.
  replace (IZR 0 * 0.1)%R with 0%R by lra.
  rewrite sin_neg, cos_0. intros Hv.
  pose proof sin_1_bounds.
  unfold Rabs in Hv. destruct (Rcase_abs _) in Hv; apply Zfloor_eq; lra.
Qed.

Lemma noise_m10_0 : noise (-10) 0 = -3.
Proof.
  unfold noise. apply noise_m10_0_stable.
  rewrite Rminus_diag, Rabs_R0. lra.
Qed.

Lemma noise_0_0 : noise 0 0 = 0.
Proof.
  unfold noise. replace (IZR 0 * 0.1)%R with 0%R by lra.
  rewrite sin_0, cos_0. apply Zfloor_eq. lra.
Qed.

(** ** Loops on two states *)

Lemma for_range_rel {St : Type} (R : St → St → Prop) lo hi
    (body : Z → St → St) s1 s2 :
  R s1 s2 → (∀ i a b, R a b → R (body i a) (body i b)) →
  R (for_range lo hi body s1) (for_range lo hi body s2).
Proof.
  intros H0 Hstep. unfold for_range.
  generalize (seqZ lo (hi - lo + 1)). intros l.
  revert s1 s2 H0. induction l as [|i l IH]; intros s1 s2 H0; simpl; auto.
Qed.

Lemma same_blocks_group_add mesh g1 g2 :
  same_blocks g1 g2 → same_blocks (group_add mesh g1) (group_add mesh g2).
Proof.
  intros [Hw Hb]. unfold same_blocks, group_add. rewrite Hb.
  destruct (blocksGroupRef g2) eqn:E; simpl; by rewrite ?Hw, ?E.
Qed.

Lemma Game_placeTerrainBlock_same x y z h g1 g2 :
  same_blocks g1 g2 →
  same_blocks (Game.placeTerrainBlock x y z h g1)
              (Game.placeTerrainBlock x y z h g2).
Proof.
  intros H. unfold Game.placeTerrainBlock.
  apply same_blocks_group_add. destruct H as [Hw Hb]. rewrite Hw.
  by split.
Qed.

Lemma Part000_placeTerrainBlock_same x y z h g1 g2 :
  same_blocks g1 g2 →
  same_blocks (Part000.placeTerrainBlock x y z h g1)
              (Part000.placeTerrainBlock x y z h g2).
Proof.
  intros [Hw Hb]. unfold Part000.placeTerrainBlock, Part000.createBlockMesh.
  simpl. rewrite Hb, Hw. destruct (blocksGroupRef g2) eqn:E.
  - apply same_blocks_group_add. split; simpl; congruence.
  - split; simpl; congruence.
Qed.

Lemma Game_generateTerrainWith_same height xmin xmax zmin zmax g1 g2 :
  is_Some (blocksGroupRef g1) → is_Some (blocksGroupRef g2) →
  same_blocks (Game.generateTerrainWith height xmin xmax zmin zmax g1)
              (Game.generateTerrainWith height xmin xmax zmin zmax g2).
Proof.
  intros [c1 H1] [c2 H2]. unfold Game.generateTerrainWith. rewrite H1, H2.
  apply for_range_rel; [by split|]. intros x a b Hab.
  apply for_range_rel; [done|]. intros z a' b' Hab'. simpl.
  apply for_range_rel; [done|]. intros y a'' b'' Hab''.
  by apply Game_placeTerrainBlock_same.
Qed.

Lemma Part000_generateTerrainWith_same height xmin xmax zmin zmax g1 g2 :
  is_Some (blocksGroupRef g1) → is_Some (blocksGroupRef g2) →
  same_blocks (Part000.generateTerrainWith height xmin xmax zmin zmax g1)
              (Part000.generateTerrainWith height xmin xmax zmin zmax g2).
Proof.
  intros [c1 H1] [c2 H2]. unfold Part000.generateTerrainWith. rewrite H1, H2.
  apply for_range_rel; [by split|]. intros x a b Hab.
  apply for_range_rel; [done|]. intros z a' b' Hab'. simpl.
  apply for_range_rel; [done|]. intros y a'' b'' Hab''.
  by apply Part000_placeTerrainBlock_same.
Qed.

(** The group is still set when the loops end. *)
Lemma Game_generateTerrainWith_group height xmin xmax zmin zmax g :
  is_Some (blocksGroupRef g) →
  is_Some (blocksGroupRef (Game.generateTerrainWith height xmin xmax zmin zmax g)).
Proof.
  intros [c Hc]. unfold Game.generateTerrainWith. rewrite Hc.
  apply (for_range_inv (λ g, is_Some (blocksGroupRef g))); [simpl; eauto|].
  intros x s _ Hs. apply (for_range_inv (λ g, is_Some (blocksGroupRef g))); [done|].
  intros z s' _ Hs'. simpl.
  apply (for_range_inv (λ g, is_Some (blocksGroupRef g))); [done|].
  intros y s'' _ Hs''. unfold Game.placeTerrainBlock.
  by apply blocksGroupRef_group_add.
Qed.

Lemma Part000_generateTerrainWith_group height xmin xmax zmin zmax g :
  is_Some (blocksGroupRef g) →
  is_Some (blocksGroupRef (Part000.generateTerrainWith height xmin xmax zmin zmax g)).
Proof.
  intros [c Hc]. unfold Part000.generateTerrainWith. rewrite Hc.
  apply (for_range_inv (λ g, is_Some (blocksGroupRef g))); [simpl; eauto|].
  intros x s _ Hs. apply (for_range_inv (λ g, is_Some (blocksGroupRef g))); [done|].
  intros z s' _ Hs'. simpl.
  apply (for_range_inv (λ g, is_Some (blocksGroupRef g))); [done|].
  intros y s'' _ Hs''. unfold Part000.placeTerrainBlock, Part000.createBlockMesh.
  simpl. destruct Hs'' as [c' Hc']. rewrite Hc'.
  apply blocksGroupRef_group_add. simpl. eauto.
Qed.

(** * Terrain generation *)

Lemma Part000_height_gt_1 x z : 1 < Part000.height x z.
Proof. unfold Part000.height. pose proof (noise_bounds x z). lia. Qed.

(** C3 — Terrain height-threshold gating. In [MinecraftGame.tsx], whatever
    the column height function and the bounds, every cell [(x, y, z)] with
    [0 <= y <= height] holds one block, stored under its own key; when
    [height <= 1] that block is Stone; it is Grass exactly when [y = height]
    and [height > 1], and Dirt exactly when [height - 2 <= y < height] and
    [height > 1]; nothing else is stored. In the second variant the height is
    always above 1 and the same classification holds without the gate. *)
Theorem C3_height_threshold_gating :
  (∀ height xmin xmax zmin zmax g,
     is_Some (blocksGroupRef g) →
     let w := worldRef (Game.generateTerrainWith height xmin xmax zmin zmax g) in
     (∀ x y z, in_terrain height xmin xmax zmin zmax x y z →
        ∃ b, w !! key_of_Z x y z = Some b
             ∧ position b = Vector3_of_Z x y z
             ∧ (height x z ≤ 1 → type b = STONE)
             ∧ (type b = GRASS ↔ y = height x z ∧ 1 < height x z)
             ∧ (type b = DIRT ↔ height x z - 2 ≤ y < height x z ∧ 1 < height x z))
     ∧ (∀ k b, w !! k = Some b →
          ∃ x y z, in_terrain height xmin xmax zmin zmax x y z
                   ∧ k = key_of_Z x y z ∧ position b = Vector3_of_Z x y z))
  ∧
  (∀ g,
     is_Some (blocksGroupRef g) →
     let w := worldRef (Part000.generateTerrain g) in
     (∀ x y z, in_terrain Part000.height (-20) 20 (-20) 20 x y z →
        1 < Part000.height x z
        ∧ ∃ b, w !! key_of_Z x y z = Some b
               ∧ position b = Vector3_of_Z x y z
               ∧ (type b = GRASS ↔ y = Part000.height x z)
               ∧ (type b = DIRT ↔
                    Part000.height x z - 2 ≤ y < Part000.height x z))
     ∧ (∀ k b, w !! k = Some b →
          ∃ x y z, in_terrain Part000.height (-20) 20 (-20) 20 x y z
                   ∧ k = key_of_Z x y z ∧ position b = Vector3_of_Z x y z)).
Proof.
  split.
  - intros height xmin xmax zmin zmax g Hg w.
    pose proof (Game_terrain_cells height xmin xmax zmin zmax g Hg) as H.
    fold w in H. split.
    + intros x y z Hc. eexists. split; [by apply (holds_cells_lookup _ _ _ _ _ _ H)|].
      split; [done|]. simpl.
      destruct (Game_blockTypeAt_spec y (height x z)) as (Hs & Hgr & Hd & _).
      split; [done|]. split; [done|]. rewrite Hd.
      destruct Hc as (_ & _ & Hy). split; intros; split; lia.
    + intros k b Hk. apply H in Hk as (x & y & z & Hc & -> & ->).
      exists x, y, z. auto.
  - intros g Hg w.
    pose proof (Part000_terrain_cells Part000.height (-20) 20 (-20) 20 g Hg) as H.
    fold (Part000.generateTerrain g) in H. fold w in H. split.
    + intros x y z Hc. split; [apply Part000_height_gt_1|].
      eexists. split; [by apply (holds_cells_lookup _ _ _ _ _ _ H)|].
      split; [done|]. simpl.
      destruct (Part000_blockTypeAt_spec y (Part000.height x z)) as (Hgr & Hd & _).
      split; [done|]. rewrite Hd.
      destruct Hc as (_ & _ & Hy). split; intros; lia.
    + intros k b Hk. apply H in Hk as (x & y & z & Hc & -> & ->).
      exists x, y, z. auto.
Qed.

Lemma C3_height_threshold_gating_witness :
  ∃ b, worldRef (Game.generateTerrainWith (λ _ _, 1) 0 0 0 0 scene_ready)
         !! key_of_Z 0 1 0 = Some b
       ∧ type b = STONE.
Proof.
  destruct (proj1 C3_height_threshold_gating (λ _ _, 1) 0 0 0 0 scene_ready)
    as [H _].
  { simpl. eauto. }
  destruct (H 0 1 0) as (b & Hb & _ & Hs & _).
  { unfold in_terrain. lia. }
  exists b. split; [exact Hb|]. apply Hs. lia.
Defined.

(** C6 — Terrain generation determinism. Two runs of the generator with the
    same bounds and the same height function end with the same world map
    and the same list of meshes, whatever the two states they start from
    held before; in particular a second run right after the first changes
    neither. Both variants. *)
Theorem C6_generate_deterministic :
  (∀ height xmin xmax zmin zmax g1 g2,
     is_Some (blocksGroupRef g1) → is_Some (blocksGroupRef g2) →
     worldRef (Game.generateTerrainWith height xmin xmax zmin zmax g1)
     = worldRef (Game.generateTerrainWith height xmin xmax zmin zmax g2)
     ∧ blocksGroupRef (Game.generateTerrainWith height xmin xmax zmin zmax g1)
       = blocksGroupRef (Game.generateTerrainWith height xmin xmax zmin zmax g2))
  ∧
  (∀ height xmin xmax zmin zmax g1 g2,
     is_Some (blocksGroupRef g1) → is_Some (blocksGroupRef g2) →
     worldRef (Part000.generateTerrainWith height xmin xmax zmin zmax g1)
     = worldRef (Part000.generateTerrainWith height xmin xmax zmin zmax g2)
     ∧ blocksGroupRef (Part000.generateTerrainWith height xmin xmax zmin zmax g1)
       = blocksGroupRef (Part000.generateTerrainWith height xmin xmax zmin zmax g2))
  ∧
  (∀ g, is_Some (blocksGroupRef g) →
     worldRef (Game.generateTerrain (Game.generateTerrain g))
     = worldRef (Game.generateTerrain g)
     ∧ blocksGroupRef (Game.generateTerrain (Game.generateTerrain g))
       = blocksGroupRef (Game.generateTerrain g))
  ∧
  (∀ g, is_Some (blocksGroupRef g) →
     worldRef (Part000.generateTerrain (Part000.generateTerrain g))
     = worldRef (Part000.generateTerrain g)
     ∧ blocksGroupRef (Part000.generateTerrain (Part000.generateTerrain g))
       = blocksGroupRef (Part000.generateTerrain g)).
Proof.
  split; [|split; [|split]].
  - intros height xmin xmax zmin zmax g1 g2 H1 H2.
    by apply Game_generateTerrainWith_same.
  - intros height xmin xmax zmin zmax g1 g2 H1 H2.
    by apply Part000_generateTerrainWith_same.
  - intros g Hg. apply Game_generateTerrainWith_same; [|done].
    by apply Game_generateTerrainWith_group.
  - intros g Hg. apply Part000_generateTerrainWith_same; [|done].
    by apply Part000_generateTerrainWith_group.
Qed.

Lemma C6_generate_deterministic_witness :
  worldRef (Game.generateTerrainWith (λ x z, x + z) 0 1 0 1 scene_ready)
  = worldRef (Game.generateTerrainWith (λ x z, x + z) 0 1 0 1 scene_stale).
Proof.
  apply (proj1 C6_generate_deterministic (λ x z, x + z) 0 1 0 1
           scene_ready scene_stale); simpl; eauto.
Defined.

Lemma inject_Z_inj (a b : Z) : inject_Z a = inject_Z b → a = b.
Proof. by intros [= ->]. Qed.

(** C10 — Empty columns. A column whose height is negative receives no
    block: no key of the column is bound and no stored block has its
    position in the column. Both variants, for every height function and all
    bounds. With the offset 2 of [MinecraftGame.tsx] the column [(-10, 0)],
    inside the generated bounds, has height [-1] and stays empty; the height
    is [-1] for every value of the product within a quarter of the exact
    one, so the rounding of the floating-point operations does not change
    it. *)
Theorem C10_negative_height_column_empty :
  (∀ height xmin xmax zmin zmax g x z,
     is_Some (blocksGroupRef g) → height x z < 0 →
     let w := worldRef (Game.generateTerrainWith height xmin xmax zmin zmax g) in
     (∀ y, w !! key_of_Z x y z = None)
     ∧ (∀ k b, w !! k = Some b →
          ¬ (vx (position b) = inject_Z x ∧ vz (position b) = inject_Z z)))
  ∧
  (∀ height xmin xmax zmin zmax g x z,
     is_Some (blocksGroupRef g) → height x z < 0 →
     let w := worldRef (Part000.generateTerrainWith height xmin xmax zmin zmax g) in
     (∀ y, w !! key_of_Z x y z = None)
     ∧ (∀ k b, w !! k = Some b →
          ¬ (vx (position b) = inject_Z x ∧ vz (position b) = inject_Z z)))
  ∧
  (-20 ≤ -10 ≤ 20 ∧ -20 ≤ 0 ≤ 20 ∧ Game.height (-10) 0 = -1
   ∧ (∀ g, is_Some (blocksGroupRef g) →
        ∀ y, worldRef (Game.generateTerrain g) !! key_of_Z (-10) y 0 = None)
   ∧ (∀ v : R,
        (Rabs (v - sin (IZR (-10) * 0.1) * cos (IZR 0 * 0.1) * 3) <= 1 / 4)%R →
        Zfloor v + 2 = -1)).
Proof.
  assert (Hgen : ∀ blk height xmin xmax zmin zmax w x z,
    (∀ x y z, position (blk x y z) = Vector3_of_Z x y z) →
    holds_cells blk (in_terrain height xmin xmax zmin zmax) w →
    height x z < 0 →
    (∀ y, w !! key_of_Z x y z = None)
    ∧ (∀ k b, w !! k = Some b →
         ¬ (vx (position b) = inject_Z x ∧ vz (position b) = inject_Z z))).
  { intros blk height xmin xmax zmin zmax w x z Hpos H Hneg. split.
    - intros y. apply (holds_cells_lookup_None _ _ _ _ _ _ H).
      unfold in_terrain. lia.
    - intros k b Hk [Hx Hz].
      apply H in Hk as (x' & y' & z' & Hc & _ & ->).
      rewrite Hpos in Hx, Hz. simpl in Hx, Hz.
      apply inject_Z_inj in Hx, Hz. subst x' z'.
      unfold in_terrain in Hc. lia. }
  split; [|split].
  - intros height xmin xmax zmin zmax g x z Hg Hneg w.
    apply (Hgen (terrain_block Game.blockTypeAt height) height xmin xmax zmin zmax);
      [done| |done].
    by apply Game_terrain_cells.
  - intros height xmin xmax zmin zmax g x z Hg Hneg w.
    apply (Hgen (terrain_block Part000.blockTypeAt height) height xmin xmax zmin zmax);
      [done| |done].
    by apply Part000_terrain_cells.
  - assert (Hh : Game.height (-10) 0 = -1).
    { unfold Game.height. rewrite noise_m10_0. done. }
    split; [lia|]. split; [lia|]. split; [done|]. split.
    + intros g Hg y.
      apply (Hgen (terrain_block Game.blockTypeAt Game.height) Game.height
                  (-20) 20 (-20) 20); [done| |lia].
      by apply Game_terrain_cells.
    + intros v Hv. rewrite (noise_m10_0_stable v Hv). done.
Qed.

Lemma C10_negative_height_column_empty_witness :
  worldRef (Game.generateTerrainWith (λ x z, x - 1) 0 1 0 0 scene_ready)
    !! key_of_Z 0 0 0 = None.
Proof.
  apply (proj1 C10_negative_height_column_empty (λ x z, x - 1) 0 1 0 0
           scene_ready 0 0); [simpl; eauto | lia].
Defined.

(** * Edits *)

Lemma worldRef_Game_removeBlockMesh p g :
  worldRef (Game.removeBlockMesh p g)
  = match worldRef g !! position_key p, blocksGroupRef g with
    | Some _, Some _ => delete (position_key p) (worldRef g)
    | _, _ => worldRef g
    end.
Proof.
  unfold Game.removeBlockMesh.
  destruct (worldRef g !! position_key p), (blocksGroupRef g); try done.
  by destruct (find_mesh p l).
Qed.

Lemma currentBlockType_Game_removeBlockMesh p g :
  currentBlockType (Game.removeBlockMesh p g) = currentBlockType g.
Proof.
  unfold Game.removeBlockMesh.
  destruct (worldRef g !! position_key p), (blocksGroupRef g); try done.
  by destruct (find_mesh p l).
Qed.

Lemma worldRef_Part000_removeBlockMesh p g :
  worldRef (Part000.removeBlockMesh p g) = worldRef g.
Proof.
  unfold Part000.removeBlockMesh. destruct (blocksGroupRef g); [|done].
  by destruct (find_mesh p l).
Qed.

Lemma currentBlockType_Part000_removeBlockMesh p g :
  currentBlockType (Part000.removeBlockMesh p g) = currentBlockType g.
Proof.
  unfold Part000.removeBlockMesh. destruct (blocksGroupRef g); [|done].
  by destruct (find_mesh p l).
Qed.

Lemma Game_handleClick_outcome button intersects g :
  edit_outcome (currentBlockType g) (worldRef g)
               (worldRef (Game.handleClick button intersects g))
  ∧ currentBlockType (Game.handleClick button intersects g) = currentBlockType g.
Proof.
  unfold Game.handleClick.
  destruct (negb (isPointerLocked g) || negb (raycasterRef g)
            || negb (cameraRef g)
            || negb (bool_decide (is_Some (blocksGroupRef g)))); [by split; [left|]|].
  destruct intersects as [|intersect _]; [by split; [left|]|].
  destruct (face_normal intersect) as [normal|]; [|by split; [left|]].
  destruct (button =? 0).
  { rewrite worldRef_Game_removeBlockMesh, currentBlockType_Game_removeBlockMesh.
    split; [|done].
    destruct (worldRef g !! position_key (mesh_position (object intersect))) eqn:E;
      [|by left].
    destruct (blocksGroupRef g); [|by left].
    right. left. eexists. split; [|done]. by rewrite E. }
  destruct (button =? 2); [|by split; [left|]].
  case_bool_decide as Hocc; [by split; [left|]|].
  rewrite worldRef_group_add, currentBlockType_group_add. simpl.
  split; [|done]. right. right. eexists. split; [|done].
  by apply eq_None_not_Some.
Qed.

Lemma Part000_handleClick_outcome button intersects g :
  edit_outcome (currentBlockType g) (worldRef g)
               (worldRef (Part000.handleClick button intersects g))
  ∧ currentBlockType (Part000.handleClick button intersects g)
    = currentBlockType g.
Proof.
  unfold Part000.handleClick.
  destruct (negb (isPointerLocked g) || negb (raycasterRef g)
            || negb (cameraRef g) || negb (sceneRef g)); [by split; [left|]|].
  cbv zeta. destruct (blocksGroupRef g) as [children|]; [|by split; [left|]].
  destruct intersects as [|intersect _]; [by split; [left|]|].
  destruct (button =? 0).
  { destruct (userData_block (object intersect)) as [clickedBlock|];
      [|by split; [left|]].
    rewrite worldRef_Part000_removeBlockMesh,
      currentBlockType_Part000_removeBlockMesh. simpl.
    split; [|done].
    destruct (worldRef g !! position_key (position clickedBlock)) eqn:E.
    - right. left. eexists. split; [|done]. by rewrite E.
    - left. by apply delete_id. }
  destruct (button =? 2); [|by split; [left|]].
  destruct (face_normal intersect) as [normal|]; [|by split; [left|]].
  destruct (userData_block (object intersect)) as [clickedBlock|];
    [|by split; [left|]].
  case_bool_decide as Hocc; [by split; [left|]|].
  rewrite worldRef_Part000_createBlockMesh,
    currentBlockType_Part000_createBlockMesh. simpl.
  split; [|done]. right. right. eexists. split; [|done].
  by apply eq_None_not_Some.
Qed.

(** * The occupancy invariant *)

Lemma well_keyed_empty : well_keyed ∅.
Proof. intros k b. by rewrite lookup_empty. Qed.

Lemma well_keyed_outcome t w w' :
  t ≠ AIR → well_keyed w → edit_outcome t w w' → well_keyed w'.
Proof.
  intros Ht Hw [->|[(p & _ & ->)|(p & _ & ->)]]; [done| |].
  - intros k b Hk. apply lookup_delete_Some in Hk as [_ Hk]. by apply Hw.
  - intros k b Hk. apply lookup_insert_Some in Hk as [[<- <-]|[_ Hk]].
    + done.
    + by apply Hw.
Qed.

Lemma well_keyed_cells classify height C w :
  (∀ y h, classify y h ≠ AIR) →
  holds_cells (terrain_block classify height) C w → well_keyed w.
Proof.
  intros Hc H k b Hk. apply H in Hk as (x & y & z & _ & -> & ->).
  split; [apply Hc|done].
Qed.

Lemma Game_blockTypeAt_not_AIR y h : Game.blockTypeAt y h ≠ AIR.
Proof.
  unfold Game.blockTypeAt.
  by destruct ((y =? h) && (h >? 1)), ((y >=? h - 2) && (h >? 1)).
Qed.

Lemma Part000_blockTypeAt_not_AIR y h : Part000.blockTypeAt y h ≠ AIR.
Proof.
  unfold Part000.blockTypeAt. by destruct (y =? h), (y >=? h - 2).
Qed.

Lemma currentBlockType_Game_generateTerrainWith height xmin xmax zmin zmax g :
  currentBlockType (Game.generateTerrainWith height xmin xmax zmin zmax g)
  = currentBlockType g.
Proof.
  unfold Game.generateTerrainWith. destruct (blocksGroupRef g); [|done].
  set (t := currentBlockType g).
  apply (for_range_inv (λ s, currentBlockType s = t)); [done|].
  intros x s _ Hs. apply (for_range_inv (λ s, currentBlockType s = t)); [done|].
  intros z s' _ Hs'. simpl.
  apply (for_range_inv (λ s, currentBlockType s = t)); [done|].
  intros y s'' _ Hs''. unfold Game.placeTerrainBlock.
  by rewrite currentBlockType_group_add.
Qed.

Lemma currentBlockType_Part000_generateTerrainWith height xmin xmax zmin zmax g :
  currentBlockType (Part000.generateTerrainWith height xmin xmax zmin zmax g)
  = currentBlockType g.
Proof.
  unfold Part000.generateTerrainWith. destruct (blocksGroupRef g); [|done].
  set (t := currentBlockType g).
  apply (for_range_inv (λ s, currentBlockType s = t)); [done|].
  intros x s _ Hs. apply (for_range_inv (λ s, currentBlockType s = t)); [done|].
  intros z s' _ Hs'. simpl.
  apply (for_range_inv (λ s, currentBlockType s = t)); [done|].
  intros y s'' _ Hs''. unfold Part000.placeTerrainBlock.
  by rewrite currentBlockType_Part000_createBlockMesh.
Qed.

Lemma Inv_initial : Inv initial.
Proof. split; [apply well_keyed_empty|done]. Qed.

Lemma Inv_Game_initScene mounted g : Inv g → Inv (Game.initScene mounted g).
Proof.
  intros [Hw Ht]. unfold Game.initScene. destruct mounted; simpl; [|done].
  unfold Game.generateTerrain. split.
  - eapply well_keyed_cells; [apply Game_blockTypeAt_not_AIR|].
    apply Game_terrain_cells. simpl. eauto.
  - by rewrite currentBlockType_Game_generateTerrainWith.
Qed.

Lemma Inv_Part000_initScene mounted g :
  Inv g → Inv (Part000.initScene mounted g).
Proof.
  intros [Hw Ht]. unfold Part000.initScene. destruct mounted; simpl; [|done].
  unfold Part000.generateTerrain. split.
  - eapply well_keyed_cells; [apply Part000_blockTypeAt_not_AIR|].
    apply Part000_terrain_cells. simpl. eauto.
  - by rewrite currentBlockType_Part000_generateTerrainWith.
Qed.

Lemma Inv_Game_handleKeyDown code g : Inv g → Inv (Game.handleKeyDown code g).
Proof.
  intros [Hw Ht]. unfold Game.handleKeyDown.
  repeat match goal with |- context [if ?c then _ else _] => destruct c end;
    by split.
Qed.

Lemma Inv_Part000_handleKeyDown code g :
  Inv g → Inv (Part000.handleKeyDown code g).
Proof.
  intros [Hw Ht]. unfold Part000.handleKeyDown, Part000.blockTypeMap.
  repeat case_bool_decide; by split.
Qed.

Lemma Inv_Game_step e g : Inv g → Inv (Game.step e g).
Proof.
  intros HI. destruct e as [mounted|button intersects|code|code|mounted|locked];
    simpl.
  - by apply Inv_Game_initScene.
  - destruct HI as [Hw Ht].
    destruct (Game_handleClick_outcome button intersects g) as [Ho Hc].
    split; [by eapply well_keyed_outcome|by rewrite Hc].
  - by apply Inv_Game_handleKeyDown.
  - done.
  - unfold Game.requestPointerLock. by destruct mounted.
  - done.
Qed.

Lemma Inv_Part000_step e g : Inv g → Inv (Part000.step e g).
Proof.
  intros HI.
  destruct e as [mounted|button intersects|code|code|mounted rejected|locked];
    simpl.
  - by apply Inv_Part000_initScene.
  - destruct HI as [Hw Ht].
    destruct (Part000_handleClick_outcome button intersects g) as [Ho Hc].
    split; [by eapply well_keyed_outcome|by rewrite Hc].
  - by apply Inv_Part000_handleKeyDown.
  - done.
  - unfold Part000.requestPointerLock. by destruct (mounted && rejected).
  - done.
Qed.

Lemma Inv_Game_reachable g : Game.reachable g → Inv g.
Proof.
  induction 1 as [|e g _ IH]; [apply Inv_initial|by apply Inv_Game_step].
Qed.

Lemma Inv_Part000_reachable g : Part000.reachable g → Inv g.
Proof.
  induction 1 as [|e g _ IH]; [apply Inv_initial|by apply Inv_Part000_step].
Qed.

Lemma well_keyed_occupancy w :
  well_keyed w →
  (∀ k b, w !! k = Some b →
     (type b = GRASS ∨ type b = DIRT ∨ type b = STONE ∨ type b = WOOD)
     ∧ k = position_key (position b))
  ∧ (∀ k1 k2 b1 b2, w !! k1 = Some b1 → w !! k2 = Some b2 →
       position b1 = position b2 → k1 = k2 ∧ b1 = b2).
Proof.
  intros Hw. split.
  - intros k b Hk. destruct (Hw k b Hk) as [Ht ->]. split; [|done].
    destruct (type b); auto. done.
  - intros k1 k2 b1 b2 H1 H2 Hp.
    destruct (Hw k1 b1 H1) as [_ E1]. destruct (Hw k2 b2 H2) as [_ E2].
    assert (k1 = k2) as -> by congruence. split; congruence.
Qed.

(** C1 — Occupancy invariant. In every state reachable from the initial
    one by the events of the component (effect run with terrain generation,
    clicks with any raycast result, key and pointer-lock events), every
    stored block has type Grass, Dirt, Stone or Wood and is stored under the
    key of its own position; hence two stored blocks with the same position
    are the same entry. Both variants. *)
Theorem C1_occupancy_invariant :
  (∀ g, Game.reachable g →
     (∀ k b, worldRef g !! k = Some b →
        (type b = GRASS ∨ type b = DIRT ∨ type b = STONE ∨ type b = WOOD)
        ∧ k = position_key (position b))
     ∧ (∀ k1 k2 b1 b2,
          worldRef g !! k1 = Some b1 → worldRef g !! k2 = Some b2 →
          position b1 = position b2 → k1 = k2 ∧ b1 = b2))
  ∧
  (∀ g, Part000.reachable g →
     (∀ k b, worldRef g !! k = Some b →
        (type b = GRASS ∨ type b = DIRT ∨ type b = STONE ∨ type b = WOOD)
        ∧ k = position_key (position b))
     ∧ (∀ k1 k2 b1 b2,
          worldRef g !! k1 = Some b1 → worldRef g !! k2 = Some b2 →
          position b1 = position b2 → k1 = k2 ∧ b1 = b2)).
Proof.
  split; intros g Hg; apply well_keyed_occupancy.
  - by apply Inv_Game_reachable.
  - by apply Inv_Part000_reachable.
Qed.

Lemma Game_height_0_0 : Game.height 0 0 = 2.
Proof. unfold Game.height. by rewrite noise_0_0. Qed.

Lemma C1_occupancy_invariant_witness :
  ∃ b, worldRef Game_mounted !! key_of_Z 0 0 0 = Some b
       ∧ (type b = GRASS ∨ type b = DIRT ∨ type b = STONE ∨ type b = WOOD).
Proof.
  assert (Hr : Game.reachable Game_mounted)
    by (apply Game.reachable_step, Game.reachable_initial).
  assert (Hk : worldRef Game_mounted !! key_of_Z 0 0 0
               = Some (terrain_block Game.blockTypeAt Game.height 0 0 0)).
  { apply (holds_cells_lookup _ (in_terrain Game.height (-20) 20 (-20) 20)).
    - apply Game_terrain_cells. simpl. eauto.
    - unfold in_terrain. rewrite Game_height_0_0. lia. }
  eexists. split; [exact Hk|].
  exact (proj1 (proj1 (proj1 C1_occupancy_invariant Game_mounted Hr) _ _ Hk)).
Defined.

(** * Placement *)

Lemma Vector3_equals_refl p : Vector3_equals p p = true.
Proof.
  unfold Vector3_equals.
  rewrite !(proj2 (Qeq_bool_iff _ _)) by reflexivity. done.
Qed.

(** In the second variant a right click on a hit block stores the new block
    at the position of the hit block plus the face normal. *)
Lemma Part000_place_adjacent g intersect rest clickedBlock normal :
  isPointerLocked g = true → raycasterRef g = true → cameraRef g = true →
  sceneRef g = true → is_Some (blocksGroupRef g) →
  userData_block (object intersect) = Some clickedBlock →
  face_normal intersect = Some normal →
  let target := Vector3_add (position clickedBlock) normal in
  worldRef g !! position_key target = None →
  worldRef (Part000.handleClick 2 (intersect :: rest) g)
  = <[position_key target := mkBlock (currentBlockType g) target]> (worldRef g).
Proof.
  intros Hl Hr Hc Hs [children Hg] Hu Hn target Hfree.
  unfold Part000.handleClick.
  rewrite Hl, Hr, Hc, Hs, Hg, Hu, Hn.
  change (2 =? 0) with false. change (2 =? 2) with true.
  unfold Part000.newPosition. cbv beta iota zeta. cbn [negb orb].
  fold target. case_bool_decide as Hocc.
  - rewrite Hfree in Hocc. by destruct Hocc.
  - by rewrite worldRef_Part000_createBlockMesh.
Qed.

(** C2 — Placement adjacency, on the scenario of the claim: one block at
    [(0, 0, 0)], hit from above on its top face. [MinecraftGame.tsx] stores
    the new block at [(0.5, 1.5, 0.5)] under the key ["0.5,1.5,0.5"] and
    leaves the cell [(0, 1, 0)] free; the second variant stores it at
    [(0, 1, 0)] under ["0,1,0"], and a second click with the same hit leaves
    that world unchanged. *)
Theorem C2_place_on_top_scenario :
  (worldRef (Game.handleClick 2 [Game_hit_top] Game_single)
     !! "0.5,1.5,0.5"
   = Some (mkBlock GRASS (mkVector3 (1 # 2) (3 # 2) (1 # 2)))
   ∧ worldRef (Game.handleClick 2 [Game_hit_top] Game_single) !! "0,1,0" = None
   ∧ worldRef (Game.handleClick 2 [Game_hit_top] Game_single) !! "0,0,0"
     = Some origin_block)
  ∧
  (worldRef (Part000.handleClick 2 [Part000_hit_top] Part000_single)
     !! "0,1,0"
   = Some (mkBlock GRASS (Vector3_of_Z 0 1 0))
   ∧ Part000.handleClick 2 [Part000_hit_top]
       (Part000.handleClick 2 [Part000_hit_top] Part000_single)
     = Part000.handleClick 2 [Part000_hit_top] Part000_single).
Proof. vm_compute. repeat split; reflexivity. Qed.

(** C5 — A place whose target is occupied changes nothing. In both
    variants a right click whose target key is bound returns the state it
    was given: world, meshes and every other field. And whatever the click,
    the world afterwards is the old one, the old one without one bound key,
    or the old one with one key that was free now bound to a block of the
    selected type. *)
Theorem C5_place_on_occupied_is_noop :
  (∀ g intersect rest normal,
     face_normal intersect = Some normal →
     is_Some (worldRef g
                !! position_key (Game.newPosition (point intersect) normal)) →
     Game.handleClick 2 (intersect :: rest) g = g)
  ∧
  (∀ g intersect rest normal clickedBlock,
     face_normal intersect = Some normal →
     userData_block (object intersect) = Some clickedBlock →
     is_Some (worldRef g
                !! position_key
                     (Part000.newPosition (position clickedBlock) normal)) →
     Part000.handleClick 2 (intersect :: rest) g = g)
  ∧
  (∀ button intersects g,
     edit_outcome (currentBlockType g) (worldRef g)
                  (worldRef (Game.handleClick button intersects g)))
  ∧
  (∀ button intersects g,
     edit_outcome (currentBlockType g) (worldRef g)
                  (worldRef (Part000.handleClick button intersects g))).
Proof.
  split; [|split; [|split]].
  - intros g intersect rest normal Hn Hocc. unfold Game.handleClick.
    destruct (negb (isPointerLocked g) || negb (raycasterRef g)
              || negb (cameraRef g)
              || negb (bool_decide (is_Some (blocksGroupRef g)))); [done|].
    rewrite Hn. simpl. by rewrite bool_decide_eq_true_2.
  - intros g intersect rest normal clickedBlock Hn Hu Hocc.
    unfold Part000.handleClick.
    destruct (negb (isPointerLocked g) || negb (raycasterRef g)
              || negb (cameraRef g) || negb (sceneRef g)); [done|].
    destruct (blocksGroupRef g); [|done].
    rewrite Hn, Hu. simpl. by rewrite bool_decide_eq_true_2.
  - intros. apply Game_handleClick_outcome.
  - intros. apply Part000_handleClick_outcome.
Qed.

Lemma C5_place_on_occupied_is_noop_witness :
  Game.handleClick 2 [Game_hit_top]
    (Game.handleClick 2 [Game_hit_top] Game_single)
  = Game.handleClick 2 [Game_hit_top] Game_single.
Proof.
  apply (proj1 C5_place_on_occupied_is_noop _ Game_hit_top []
           (mkVector3 0 1 0)); [reflexivity|].
  vm_compute. eauto.
Defined.

(** * Place, then remove *)

Lemma find_mesh_app_fresh p children mesh :
  find_mesh p children = None → mesh_position mesh = p →
  find_mesh p (children ++ [mesh]) = Some mesh
  ∧ remove_found p (children ++ [mesh]) = children.
Proof.
  intros Hf Hm. unfold find_mesh in *.
  induction children as [|c children IH]; simpl in *.
  - rewrite Hm, Vector3_equals_refl. done.
  - destruct (Vector3_equals (mesh_position c) p); [done|].
    destruct (IH Hf) as [-> ->]. done.
Qed.

(** C8 — Place/remove round trip. A right click whose target key is free
    binds that key; a left click on the mesh of the new block then gives
    back the world map of before the placement. In [MinecraftGame.tsx], when
    no mesh stood at the target, the whole state is the one of before. Both
    variants. *)
Theorem C8_place_remove_roundtrip :
  (∀ g intersect rest normal intersect' rest' normal',
     isPointerLocked g = true → raycasterRef g = true → cameraRef g = true →
     is_Some (blocksGroupRef g) →
     face_normal intersect = Some normal →
     let target := Game.newPosition (point intersect) normal in
     let placed := Game.handleClick 2 (intersect :: rest) g in
     worldRef g !! position_key target = None →
     face_normal intersect' = Some normal' →
     mesh_position (object intersect') = target →
     worldRef placed !! position_key target
     = Some (mkBlock (currentBlockType g) target)
     ∧ worldRef (Game.handleClick 0 (intersect' :: rest') placed) = worldRef g
     ∧ (∀ children, blocksGroupRef g = Some children →
          find_mesh target children = None →
          Game.handleClick 0 (intersect' :: rest') placed = g))
  ∧
  (∀ g intersect rest normal clickedBlock intersect' rest' newBlock,
     isPointerLocked g = true → raycasterRef g = true → cameraRef g = true →
     sceneRef g = true → is_Some (blocksGroupRef g) →
     face_normal intersect = Some normal →
     userData_block (object intersect) = Some clickedBlock →
     let target := Part000.newPosition (position clickedBlock) normal in
     let placed := Part000.handleClick 2 (intersect :: rest) g in
     worldRef g !! position_key target = None →
     userData_block (object intersect') = Some newBlock →
     position newBlock = target →
     worldRef placed !! position_key target
     = Some (mkBlock (currentBlockType g) target)
     ∧ worldRef (Part000.handleClick 0 (intersect' :: rest') placed)
       = worldRef g).
Proof.
  split.
  - intros g intersect rest normal intersect' rest' normal'
      Hl Hr Hc [children Hg] Hn target placed Hfree Hn' Hm.
    assert (Hp : placed
      = group_add
          (Game.position_copy (Game.createBlockMesh (currentBlockType g)) target)
          (with_world (<[position_key target
                         := mkBlock (currentBlockType g) target]> (worldRef g)) g)).
    { unfold placed, Game.handleClick. rewrite Hl, Hr, Hc, Hg, Hn.
      change (2 =? 0) with false. change (2 =? 2) with true.
      rewrite bool_decide_eq_true_2 by eauto. cbn [negb orb].
      fold target. rewrite bool_decide_eq_false_2; [done|].
      rewrite Hfree. by intros [? ?]. }
    assert (Hw : worldRef placed
      = <[position_key target := mkBlock (currentBlockType g) target]> (worldRef g)).
    { by rewrite Hp, worldRef_group_add. }
    assert (Hb : blocksGroupRef placed
      = Some (children ++
          [Game.position_copy (Game.createBlockMesh (currentBlockType g)) target])%list).
    { rewrite Hp. unfold group_add. simpl. rewrite Hg. done. }
    assert (Hclick : Game.handleClick 0 (intersect' :: rest') placed
                     = Game.removeBlockMesh target placed).
    { unfold Game.handleClick. rewrite Hn', Hm, Hb.
      rewrite bool_decide_eq_true_2 by eauto.
      replace (isPointerLocked placed) with true
        by (rewrite Hp; unfold group_add; simpl; by rewrite Hg).
      replace (raycasterRef placed) with true
        by (rewrite Hp; unfold group_add; simpl; by rewrite Hg).
      replace (cameraRef placed) with true
        by (rewrite Hp; unfold group_add; simpl; by rewrite Hg).
      done. }
    split; [by rewrite Hw, lookup_insert_eq|]. split.
    + rewrite Hclick, worldRef_Game_removeBlockMesh, Hw, lookup_insert_eq, Hb.
      by rewrite delete_insert_eq, delete_id.
    + intros children' Hg' Hfind. rewrite Hg in Hg'. injection Hg' as <-.
      rewrite Hclick. unfold Game.removeBlockMesh.
      rewrite Hw, lookup_insert_eq, Hb.
      destruct (find_mesh_app_fresh target children
                  (Game.position_copy
                     (Game.createBlockMesh (currentBlockType g)) target)
                  Hfind eq_refl) as [-> ->].
      change (worldRef (with_blocksGroup (Some children) placed))
        with (worldRef placed).
      rewrite Hw, delete_insert_eq, delete_id by done.
      rewrite Hp. unfold group_add. simpl. rewrite Hg.
      destruct g. simpl in *. by subst.
  - intros g intersect rest normal clickedBlock intersect' rest' newBlock
      Hl Hr Hc Hs Hgrp Hn Hu target placed Hfree Hu' Hpos.
    assert (Hw : worldRef placed
      = <[position_key target := mkBlock (currentBlockType g) target]> (worldRef g)).
    { by apply Part000_place_adjacent. }
    destruct Hgrp as [children Hg].
    assert (Hflags : isPointerLocked placed = true ∧ raycasterRef placed = true
                     ∧ cameraRef placed = true ∧ sceneRef placed = true
                     ∧ is_Some (blocksGroupRef placed)).
    { unfold placed, Part000.handleClick. rewrite Hl, Hr, Hc, Hs, Hg, Hn, Hu.
      change (2 =? 0) with false. change (2 =? 2) with true. cbn [negb orb].
      cbv zeta. case_bool_decide; [rewrite Hg; eauto|].
      unfold Part000.createBlockMesh, group_add. simpl.
      rewrite Hg. simpl. eauto. }
    destruct Hflags as (Hl' & Hr' & Hc' & Hs' & [children' Hg']).
    split; [by rewrite Hw, lookup_insert_eq|].
    unfold Part000.handleClick at 1. rewrite Hl', Hr', Hc', Hs', Hg', Hu'.
    change (0 =? 0) with true. cbn [negb orb].
    rewrite worldRef_Part000_removeBlockMesh. simpl.
    rewrite Hpos, Hw. by rewrite delete_insert_eq, delete_id.
Qed.

Lemma C8_place_remove_roundtrip_witness :
  Game.handleClick 0
    [mkIntersection (mkVector3 (1 # 2) 2 (1 # 2)) (Some (mkVector3 0 1 0))
       (Game.position_copy (Game.createBlockMesh GRASS)
          (mkVector3 (1 # 2) (3 # 2) (1 # 2)))]
    (Game.handleClick 2 [Game_hit_top] Game_single)
  = Game_single.
Proof.
  refine (proj2 (proj2 (proj1 C8_place_remove_roundtrip Game_single Game_hit_top []
           (mkVector3 0 1 0) _ [] (mkVector3 0 1 0) _ _ _ _ _ _ _ _)) _ _ _);
    try reflexivity.
  simpl. eauto.
Defined.

(** * Keys of placed blocks in [MinecraftGame.tsx] *)

Lemma Game_newPosition_half point normal :
  ∃ nx ny nz : Z,
    Game.newPosition point normal
    = mkVector3 (inject_Z nx + (1 # 2)) (inject_Z ny + (1 # 2))
                (inject_Z nz + (1 # 2)).
Proof.
  unfold Game.newPosition, Vector3_addScalar, Vector3_floor. simpl.
  by eexists _, _, _.
Qed.

Lemma Game_newPosition_key_fresh point normal x y z :
  position_key (Game.newPosition point normal) ≠ key_of_Z x y z.
Proof.
  intros E.
  assert (H : occurs "." (position_key (Game.newPosition point normal)) = true).
  { destruct (Game_newPosition_half point normal) as (nx & ny & nz & ->).
    unfold position_key, key_of. simpl.
    by rewrite occurs_app, occurs_dot_half. }
  rewrite E, occurs_dot_key_of_Z in H. done.
Qed.

(** C9 — Keys of placed blocks. In [MinecraftGame.tsx] the position
    computed for a right click has the three coordinates [n + 0.5] with [n]
    an integer, and its key differs from the key of every integer cell; a
    block that a click adds to the world sits at such a position, under the
    key of that position; and no such key is bound in a freshly generated
    terrain. *)
Theorem C9_placed_keys_are_half_integers :
  (∀ point normal,
     ∃ nx ny nz : Z,
       Game.newPosition point normal
       = mkVector3 (inject_Z nx + (1 # 2)) (inject_Z ny + (1 # 2))
                   (inject_Z nz + (1 # 2)))
  ∧ (∀ point normal x y z,
       position_key (Game.newPosition point normal) ≠ key_of_Z x y z)
  ∧ (∀ button intersects g k b,
       worldRef g !! k = None →
       worldRef (Game.handleClick button intersects g) !! k = Some b →
       ∃ point normal,
         position b = Game.newPosition point normal
         ∧ k = position_key (position b)
         ∧ ∀ x y z, k ≠ key_of_Z x y z)
  ∧ (∀ g point normal,
       is_Some (blocksGroupRef g) →
       worldRef (Game.generateTerrain g)
         !! position_key (Game.newPosition point normal) = None).
Proof.
  split; [apply Game_newPosition_half|].
  split; [apply Game_newPosition_key_fresh|]. split.
  - intros button intersects g k b Hfree. unfold Game.handleClick.
    destruct (negb (isPointerLocked g) || negb (raycasterRef g)
              || negb (cameraRef g)
              || negb (bool_decide (is_Some (blocksGroupRef g)))); [congruence|].
    destruct intersects as [|intersect _]; [congruence|].
    destruct (face_normal intersect) as [normal|]; [|congruence].
    destruct (button =? 0).
    { rewrite worldRef_Game_removeBlockMesh.
      destruct (worldRef g !! position_key (mesh_position (object intersect)));
        [|congruence].
      destruct (blocksGroupRef g); [|congruence].
      intros Hk. apply lookup_delete_Some in Hk as [_ Hk]. congruence. }
    destruct (button =? 2); [|congruence].
    case_bool_decide as Hocc; [congruence|].
    rewrite worldRef_group_add. simpl. intros Hk.
    apply lookup_insert_Some in Hk as [[<- <-]|[_ Hk]]; [|congruence].
    exists (point intersect), normal. simpl. split; [done|]. split; [done|].
    intros x y z. apply Game_newPosition_key_fresh.
  - intros g point normal Hg.
    destruct (worldRef (Game.generateTerrain g)
                !! position_key (Game.newPosition point normal)) as [b|] eqn:E;
      [|done].
    apply (Game_terrain_cells Game.height (-20) 20 (-20) 20 g Hg) in E
      as (x & y & z & _ & Hk & _).
    by apply Game_newPosition_key_fresh in Hk.
Qed.

Lemma C9_placed_keys_are_half_integers_witness :
  ∃ point normal,
    mkVector3 (1 # 2) (3 # 2) (1 # 2) = Game.newPosition point normal
    ∧ "0.5,1.5,0.5" = position_key (mkVector3 (1 # 2) (3 # 2) (1 # 2)).
Proof.
  destruct (proj1 (proj2 (proj2 C9_placed_keys_are_half_integers)) 2
              [Game_hit_top] Game_single "0.5,1.5,0.5"
              (mkBlock GRASS (mkVector3 (1 # 2) (3 # 2) (1 # 2))))
    as (point & normal & Hp & Hk & _); [reflexivity|reflexivity|].
  exists point, normal. split; [exact Hp|exact Hk].
Defined.

(** * What a click leaves in the map *)


(** * Orientation *)

Lemma clampPitch_range y : (- PI / 2 <= clampPitch y <= PI / 2)%R.
Proof.
  pose proof PI_RGT_0. unfold clampPitch, Rmax, Rmin.
  repeat destruct (Rle_dec _ _); lra.
Qed.

Lemma clampPitch_high y : (PI / 2 <= y)%R → clampPitch y = (PI / 2)%R.
Proof.
  pose proof PI_RGT_0. intros Hy. unfold clampPitch, Rmax, Rmin.
  repeat destruct (Rle_dec _ _); lra.
Qed.

Lemma clampPitch_low y : (y <= - PI / 2)%R → clampPitch y = (- PI / 2)%R.
Proof.
  pose proof PI_RGT_0. intros Hy. unfold clampPitch, Rmax, Rmin.
  repeat destruct (Rle_dec _ _); lra.
Qed.

Lemma clampPitch_inside y : (- PI / 2 <= y <= PI / 2)%R → clampPitch y = y.
Proof.
  pose proof PI_RGT_0. intros Hy. unfold clampPitch, Rmax, Rmin.
  repeat destruct (Rle_dec _ _); lra.
Qed.

Lemma look_after_range events l :
  (- PI / 2 <= mouse_y (mouseRef l) <= PI / 2)%R →
  rotation_x l = mouse_y (mouseRef l) →
  (- PI / 2 <= mouse_y (mouseRef (look_after events l)) <= PI / 2)%R
  ∧ rotation_x (look_after events l) = mouse_y (mouseRef (look_after events l)).
Proof.
  revert l. induction events as [|e events IH]; intros l Hr Hx; [done|].
  simpl. apply IH.
  - unfold handleMouseMove.
    destruct (negb (mm_locked e) || negb (mm_camera e)); [done|].
    simpl. apply clampPitch_range.
  - unfold handleMouseMove.
    by destruct (negb (mm_locked e) || negb (mm_camera e)).
Qed.

(** C7 — Pitch clamp. From the initial pose, after any finite list of
    pointer events (each with whatever the two guards read), the pitch
    [mouseRef.current.y] lies in [[-π/2, π/2]] and the camera's x rotation
    equals it. One handled event that would carry the pitch to or past a
    bound leaves it exactly on that bound; one that keeps it inside stores
    the moved value. The clamp puts every number inside the interval,
    whatever the subtraction before it produced. *)
Theorem C7_pitch_clamped :
  (∀ events,
     (- PI / 2 <= mouse_y (mouseRef (look_after events Look_initial)) <= PI / 2)%R
     ∧ rotation_x (look_after events Look_initial)
       = mouse_y (mouseRef (look_after events Look_initial)))
  ∧
  (∀ l dx dy,
     ((PI / 2 <= mouse_y (mouseRef l) - dy * 0.002)%R →
      mouse_y (mouseRef (handleMouseMove true true dx dy l)) = (PI / 2)%R)
     ∧ ((mouse_y (mouseRef l) - dy * 0.002 <= - PI / 2)%R →
        mouse_y (mouseRef (handleMouseMove true true dx dy l)) = (- PI / 2)%R)
     ∧ ((- PI / 2 <= mouse_y (mouseRef l) - dy * 0.002 <= PI / 2)%R →
        mouse_y (mouseRef (handleMouseMove true true dx dy l))
        = (mouse_y (mouseRef l) - dy * 0.002)%R))
  ∧
  (∀ y, (- PI / 2 <= clampPitch y <= PI / 2)%R).
Proof.
  split; [|split].
  - intros events. apply look_after_range; simpl; [|done].
    pose proof PI_RGT_0. lra.
  - intros l dx dy. unfold handleMouseMove. simpl.
    split; [apply clampPitch_high|]. split; [apply clampPitch_low|].
    apply clampPitch_inside.
  - apply clampPitch_range.
Qed.

(** * The terrain loops as one pass over the list of cells *)

Lemma foldl_bind {A B St : Type} (f : St → B → St) (k : A → list B) l s :
  foldl f s (l ≫= k) = foldl (λ s a, foldl f s (k a)) s l.
Proof.
  revert s. induction l as [|a l IH]; intros s; [done|].
  rewrite bind_cons, foldl_app. simpl. apply IH.
Qed.

Lemma foldl_ext_in {A St : Type} (f g : St → A → St) l s :
  (∀ s a, a ∈ l → f s a = g s a) → foldl f s l = foldl g s l.
Proof.
  revert s. induction l as [|a l IH]; intros s H; [done|]. simpl.
  rewrite H by apply list_elem_of_here.
  apply IH. intros s' a' Ha'. apply H. by apply list_elem_of_further.
Qed.

Lemma columns_loop_fold (body : Z → Z → Z → Z → Game → Game) height
    xmin xmax zmin zmax g :
  for_range xmin xmax (λ x,
    for_range zmin zmax (λ z,
      let h := height x z in
      for_range 0 h (λ y, body x y z h))) g
  = foldl (λ g '(x, y, z), body x y z (height x z) g) g
          (terrain_cells height xmin xmax zmin zmax).
Proof.
  unfold terrain_cells, for_range. rewrite foldl_bind.
  apply foldl_ext_in. intros s x _. rewrite foldl_bind.
  apply foldl_ext_in. intros s' z _. cbv zeta. rewrite foldl_bind.
  apply foldl_ext_in. intros s'' y _. done.
Qed.

Lemma elem_of_terrain_cells height xmin xmax zmin zmax x y z :
  (x, y, z) ∈ terrain_cells height xmin xmax zmin zmax
  ↔ in_terrain height xmin xmax zmin zmax x y z.
Proof.
  unfold terrain_cells, in_terrain. rewrite list_elem_of_bind. split.
  - intros (x' & Hz & Hx). apply list_elem_of_bind in Hz as (z' & Hy & Hz).
    apply list_elem_of_bind in Hy as (y' & Hc & Hy).
    apply list_elem_of_singleton in Hc. injection Hc as -> -> ->.
    apply elem_of_seqZ in Hx, Hy, Hz. lia.
  - intros (Hx & Hz & Hy). exists x. split; [|apply elem_of_seqZ; lia].
    apply list_elem_of_bind. exists z. split; [|apply elem_of_seqZ; lia].
    apply list_elem_of_bind. exists y. split; [|apply elem_of_seqZ; lia].
    by apply list_elem_of_singleton.
Qed.

Lemma NoDup_terrain_cells height xmin xmax zmin zmax :
  NoDup (terrain_cells height xmin xmax zmin zmax).
Proof.
  unfold terrain_cells. apply NoDup_bind; [| |apply NoDup_seqZ].
  - intros x1 x2 c _ _ H1 H2.
    apply list_elem_of_bind in H1 as (z1 & H1 & _).
    apply list_elem_of_bind in H1 as (y1 & H1 & _).
    apply list_elem_of_bind in H2 as (z2 & H2 & _).
    apply list_elem_of_bind in H2 as (y2 & H2 & _).
    apply list_elem_of_singleton in H1, H2. congruence.
  - intros x _. apply NoDup_bind; [| |apply NoDup_seqZ].
    + intros z1 z2 c _ _ H1 H2.
      apply list_elem_of_bind in H1 as (y1 & H1 & _).
      apply list_elem_of_bind in H2 as (y2 & H2 & _).
      apply list_elem_of_singleton in H1, H2. congruence.
    + intros z _. apply NoDup_bind; [| |apply NoDup_seqZ].
      * intros y1 y2 c _ _ H1 H2.
        apply list_elem_of_singleton in H1, H2. congruence.
      * intros y _. apply NoDup_singleton.
Qed.

(** * Scene and world in agreement *)

Lemma on_grid_Qeq q q' :
  on_grid q → on_grid q' → Qeq_bool q q' = true → q = q'.
Proof.
  destruct q as [n d], q' as [n' d']. unfold on_grid. simpl.
  intros Hq Hq' E. apply Qeq_bool_iff in E. unfold Qeq in E. simpl in E.
  destruct Hq as [->|[-> Ho]], Hq' as [->|[-> Ho']].
  - f_equal. lia.
  - apply Z.odd_spec in Ho' as [m ->]. lia.
  - apply Z.odd_spec in Ho as [m ->]. lia.
  - f_equal. lia.
Qed.

Lemma Vector3_equals_grid a b :
  Vector3_on_grid a → Vector3_on_grid b → Vector3_equals a b = true → a = b.
Proof.
  destruct a as [ax ay az], b as [bx by' bz].
  intros (Hax & Hay & Haz) (Hbx & Hby & Hbz). unfold Vector3_equals. simpl in *.
  intros E. apply andb_true_iff in E as [E Ez].
  apply andb_true_iff in E as [Ex Ey].
  f_equal; by apply on_grid_Qeq.
Qed.

Lemma Vector3_of_Z_on_grid x y z : Vector3_on_grid (Vector3_of_Z x y z).
Proof. repeat split; by left. Qed.

Lemma Game_newPosition_on_grid point normal :
  Vector3_on_grid (Game.newPosition point normal).
Proof.
  repeat split; right; (split; [done|]); simpl;
    rewrite Z.odd_add, Z.odd_mul; simpl; by rewrite andb_false_r.
Qed.

Lemma on_grid_add_integer q n : on_grid q → Qden n = 1%positive → on_grid (q + n).
Proof.
  destruct q as [a d], n as [b e]. unfold on_grid. simpl. intros Hq ->.
  destruct Hq as [->|[-> Ho]].
  - by left.
  - right. split; [done|].
    rewrite Z.odd_add, !Z.odd_mul, Ho. simpl. by rewrite andb_false_r.
Qed.

Lemma Vector3_add_on_grid p n :
  Vector3_on_grid p → Vector3_integer n → Vector3_on_grid (Vector3_add p n).
Proof.
  intros (Hx & Hy & Hz) (Hnx & Hny & Hnz).
  repeat split; by apply on_grid_add_integer.
Qed.

Lemma shows_empty ud : shows ud ∅ [].
Proof.
  split; [constructor|]. split.
  - intros m Hm. by apply elem_of_nil in Hm.
  - intros k b Hk. by rewrite lookup_empty in Hk.
Qed.

Lemma shows_insert ud w children t p m :
  shows ud w children →
  w !! position_key p = None → Vector3_on_grid p →
  mesh_position m = p → material_color m = BLOCK_COLORS t →
  userData_block m = (if ud then Some (mkBlock t p) else None) →
  shows ud (<[position_key p := mkBlock t p]> w) (children ++ [m]).
Proof.
  intros (Hnd & Hm & Hw) Hfree Hgrid Hpos Hcol Hud.
  assert (Hkey : mesh_key m = position_key p) by (unfold mesh_key; by rewrite Hpos).
  assert (Hnew : ∀ m', m' ∈ children → mesh_key m' ≠ position_key p).
  { intros m' Hm' E. destruct (Hm m' Hm') as (_ & b & Hb & _).
    rewrite E, Hfree in Hb. done. }
  split; [|split].
  - rewrite fmap_app. apply NoDup_app. split; [done|]. split.
    + intros k Hk Hk'. simpl in Hk'. apply list_elem_of_singleton in Hk'.
      apply list_elem_of_fmap in Hk as (m' & -> & Hm').
      apply (Hnew m' Hm'). congruence.
    + simpl. apply NoDup_singleton.
  - intros m' Hm'. apply elem_of_app in Hm' as [Hm'|Hm'].
    + destruct (Hm m' Hm') as (Hg & b & Hb & Hrest). split; [done|].
      exists b. split; [|done]. rewrite lookup_insert_ne; [done|].
      intros E. by apply (Hnew m' Hm').
    + apply list_elem_of_singleton in Hm' as ->. rewrite Hpos. split; [done|].
      exists (mkBlock t p). rewrite Hkey, lookup_insert_eq. done.
  - intros k b Hk. apply lookup_insert_Some in Hk as [[<- <-]|[Hne Hk]].
    + exists m. split; [|done]. apply elem_of_app. right.
      by apply list_elem_of_singleton.
    + destruct (Hw k b Hk) as (m' & Hm' & Hk'). exists m'. split; [|done].
      apply elem_of_app. by left.
Qed.

Lemma remove_found_spec p children m0 :
  (∀ m, m ∈ children → Vector3_on_grid (mesh_position m)) →
  NoDup (mesh_key <$> children) → m0 ∈ children → mesh_position m0 = p →
  (∀ m, m ∈ remove_found p children
        ↔ m ∈ children ∧ mesh_key m ≠ position_key p)
  ∧ NoDup (mesh_key <$> remove_found p children)
  ∧ find_mesh p children ≠ None.
Proof.
  intros Hgrid Hnd Hm0 Hp.
  assert (Hpg : Vector3_on_grid p) by (rewrite <- Hp; by apply Hgrid).
  induction children as [|c children IH]; [by apply elem_of_nil in Hm0|].
  rewrite fmap_cons in Hnd. apply NoDup_cons in Hnd as [Hc Hnd].
  unfold find_mesh. simpl.
  destruct (Vector3_equals (mesh_position c) p) eqn:E.
  - apply Vector3_equals_grid in E;
      [|apply Hgrid, list_elem_of_here|done].
    assert (Hck : mesh_key c = position_key p) by (unfold mesh_key; by rewrite E).
    split; [|by split]. intros m. split.
    + intros Hm. split; [by apply list_elem_of_further|].
      intros Hk. apply Hc. rewrite Hck, <- Hk.
      apply list_elem_of_fmap. by exists m.
    + intros [Hm Hk]. apply elem_of_cons in Hm as [->|Hm]; [done|done].
  - assert (Hm0' : m0 ∈ children).
    { apply elem_of_cons in Hm0 as [->|Hm0]; [|done].
      rewrite Hp, Vector3_equals_refl in E. done. }
    destruct IH as (IH1 & IH2 & IH3); [|done|done|].
    { intros m Hm. apply Hgrid. by apply list_elem_of_further. }
    assert (Hck : mesh_key c ≠ position_key p).
    { intros Hk. apply Hc. rewrite Hk, <- Hp.
      apply list_elem_of_fmap. by exists m0. }
    split; [|split; [|done]].
    + intros m. rewrite !elem_of_cons, IH1. split.
      * intros [->|[Hm Hk]]; [split; [by left|done]|split; [by right|done]].
      * intros [[->|Hm] Hk]; [by left|by right].
    + rewrite fmap_cons. apply NoDup_cons. split; [|done].
      intros Hin. apply Hc. apply list_elem_of_fmap in Hin as (m & Hk & Hm).
      apply IH1 in Hm as [Hm _]. apply list_elem_of_fmap. by exists m.
Qed.

Lemma shows_remove ud w children m0 :
  shows ud w children → m0 ∈ children →
  shows ud (delete (mesh_key m0) w) (remove_found (mesh_position m0) children).
Proof.
  intros (Hnd & Hm & Hw) Hm0.
  destruct (remove_found_spec (mesh_position m0) children m0)
    as (Hin & Hnd' & _); [by intros m Hm'; apply (Hm m Hm')|done|done|done|].
  fold (mesh_key m0) in Hin.
  split; [done|]. split.
  - intros m Hm'. apply Hin in Hm' as [Hm' Hk].
    destruct (Hm m Hm') as (Hg & b & Hb & Hrest). split; [done|].
    exists b. split; [|done]. by rewrite lookup_delete_ne.
  - intros k b Hk. apply lookup_delete_Some in Hk as [Hne Hk].
    destruct (Hw k b Hk) as (m & Hm' & Hk'). exists m. split; [|done].
    apply Hin. split; [done|congruence].
Qed.

Lemma shows_size ud w children :
  shows ud w children → length children = size w.
Proof.
  intros (Hnd & Hm & Hw).
  assert (Hdom : dom w = list_to_set (C := gset string) (mesh_key <$> children)).
  { apply set_eq. intros k. rewrite elem_of_dom, elem_of_list_to_set. split.
    - intros [b Hb]. destruct (Hw k b Hb) as (m & Hm' & <-).
      apply list_elem_of_fmap. by exists m.
    - intros Hk. apply list_elem_of_fmap in Hk as (m & -> & Hm').
      destruct (Hm m Hm') as (_ & b & Hb & _). by exists b. }
  rewrite <- size_dom, Hdom, size_list_to_set by done.
  by rewrite length_fmap.
Qed.

Local Open Scope list_scope.

Section TerrainFold.
Context (ud : bool) (classify : Z → Z → BlockType) (height : Z → Z → Z).
Context (body : Z → Z → Z → Z → Game → Game) (mesh_of : Z * Z * Z → Mesh).
Hypothesis body_world : ∀ x y z h g,
  worldRef (body x y z h g)
  = <[key_of_Z x y z := mkBlock (classify y h) (Vector3_of_Z x y z)]>
      (worldRef g).
Hypothesis body_group : ∀ x y z g children,
  blocksGroupRef g = Some children →
  blocksGroupRef (body x y z (height x z) g)
  = Some (children ++ [mesh_of (x, y, z)]).
Hypothesis mesh_of_position : ∀ x y z,
  mesh_position (mesh_of (x, y, z)) = Vector3_of_Z x y z.
Hypothesis mesh_of_color : ∀ x y z,
  material_color (mesh_of (x, y, z)) = BLOCK_COLORS (classify y (height x z)).
Hypothesis mesh_of_userData : ∀ x y z,
  userData_block (mesh_of (x, y, z))
  = (if ud then Some (mkBlock (classify y (height x z)) (Vector3_of_Z x y z))
     else None).

Lemma fold_cells_group cells g children :
  blocksGroupRef g = Some children →
  blocksGroupRef (foldl (λ g '(x, y, z), body x y z (height x z) g) g cells)
  = Some (children ++ (mesh_of <$> cells)).
Proof.
  revert g children. induction cells as [|[[x y] z] cells IH];
    intros g children Hg; simpl.
  - by rewrite app_nil_r.
  - rewrite (IH _ (children ++ [mesh_of (x, y, z)])) by by apply body_group.
    by rewrite <- app_assoc.
Qed.

Lemma fold_cells_shows cells g children :
  NoDup cells →
  (∀ x y z, (x, y, z) ∈ cells → worldRef g !! key_of_Z x y z = None) →
  blocksGroupRef g = Some children →
  shows ud (worldRef g) children →
  shows ud
    (worldRef (foldl (λ g '(x, y, z), body x y z (height x z) g) g cells))
    (children ++ (mesh_of <$> cells)).
Proof.
  revert g children. induction cells as [|[[x y] z] cells IH];
    intros g children Hnd Hfree Hg Hs.
  - rewrite fmap_nil, app_nil_r. done.
  - apply NoDup_cons in Hnd as [Hc Hnd].
    rewrite fmap_cons, (cons_middle (mesh_of (x, y, z)) children), app_assoc.
    cbn [foldl].
    apply IH; [done| |by apply body_group|].
    + intros x' y' z' Hin. rewrite body_world, lookup_insert_ne.
      * apply Hfree. by apply list_elem_of_further.
      * intros E. apply key_of_Z_inj in E as (-> & -> & ->). done.
    + rewrite body_world.
      apply (shows_insert ud (worldRef g) children
               (classify y (height x z)) (Vector3_of_Z x y z)); auto.
      * apply Hfree, list_elem_of_here.
      * apply Vector3_of_Z_on_grid.
Qed.
End TerrainFold.

Lemma blocksGroupRef_Game_placeTerrainBlock x y z h g children :
  blocksGroupRef g = Some children →
  blocksGroupRef (Game.placeTerrainBlock x y z h g)
  = Some (children ++
            [mkMesh (BLOCK_COLORS (Game.blockTypeAt y h)) (Vector3_of_Z x y z) None]).
Proof.
  intros Hg. unfold Game.placeTerrainBlock, group_add. simpl. by rewrite Hg.
Qed.

Lemma blocksGroupRef_Part000_placeTerrainBlock x y z h g children :
  blocksGroupRef g = Some children →
  blocksGroupRef (Part000.placeTerrainBlock x y z h g)
  = Some (children ++
            [mkMesh (BLOCK_COLORS (Part000.blockTypeAt y h)) (Vector3_of_Z x y z)
                    (Some (mkBlock (Part000.blockTypeAt y h) (Vector3_of_Z x y z)))]).
Proof.
  intros Hg.
  unfold Part000.placeTerrainBlock, Part000.createBlockMesh, group_add.
  simpl. by rewrite Hg.
Qed.

Lemma Game_generateTerrainWith_scene height xmin xmax zmin zmax g :
  is_Some (blocksGroupRef g) →
  let g' := Game.generateTerrainWith height xmin xmax zmin zmax g in
  let meshes :=
    Game_terrain_mesh height <$> terrain_cells height xmin xmax zmin zmax in
  blocksGroupRef g' = Some meshes ∧ shows false (worldRef g') meshes.
Proof.
  intros [c Hc] g' meshes. unfold g', Game.generateTerrainWith. rewrite Hc.
  rewrite (columns_loop_fold Game.placeTerrainBlock).
  assert (Hgrp : ∀ x y z g children,
    blocksGroupRef g = Some children →
    blocksGroupRef (Game.placeTerrainBlock x y z (height x z) g)
    = Some (children ++ [Game_terrain_mesh height (x, y, z)])).
  { intros. by apply blocksGroupRef_Game_placeTerrainBlock. }
  assert (Hwld : ∀ x y z h g,
    worldRef (Game.placeTerrainBlock x y z h g)
    = <[key_of_Z x y z := mkBlock (Game.blockTypeAt y h) (Vector3_of_Z x y z)]>
        (worldRef g)).
  { intros. unfold Game.placeTerrainBlock.
    by rewrite ?worldRef_group_add, ?worldRef_Part000_createBlockMesh. }
  split.
  - by rewrite (fold_cells_group height Game.placeTerrainBlock
                  (Game_terrain_mesh height) Hgrp _ _ []).
  - apply (fold_cells_shows false Game.blockTypeAt height
             Game.placeTerrainBlock (Game_terrain_mesh height)
             Hwld Hgrp) with (children := []); try done.
    + apply NoDup_terrain_cells.
    + apply shows_empty.
Qed.

Lemma Part000_generateTerrainWith_scene height xmin xmax zmin zmax g :
  is_Some (blocksGroupRef g) →
  let g' := Part000.generateTerrainWith height xmin xmax zmin zmax g in
  let meshes :=
    Part000_terrain_mesh height <$> terrain_cells height xmin xmax zmin zmax in
  blocksGroupRef g' = Some meshes ∧ shows true (worldRef g') meshes.
Proof.
  intros [c Hc] g' meshes. unfold g', Part000.generateTerrainWith. rewrite Hc.
  rewrite (columns_loop_fold Part000.placeTerrainBlock).
  assert (Hgrp : ∀ x y z g children,
    blocksGroupRef g = Some children →
    blocksGroupRef (Part000.placeTerrainBlock x y z (height x z) g)
    = Some (children ++ [Part000_terrain_mesh height (x, y, z)])).
  { intros. by apply blocksGroupRef_Part000_placeTerrainBlock. }
  assert (Hwld : ∀ x y z h g,
    worldRef (Part000.placeTerrainBlock x y z h g)
    = <[key_of_Z x y z := mkBlock (Part000.blockTypeAt y h) (Vector3_of_Z x y z)]>
        (worldRef g)).
  { intros. unfold Part000.placeTerrainBlock.
    by rewrite ?worldRef_group_add, ?worldRef_Part000_createBlockMesh. }
  split.
  - by rewrite (fold_cells_group height Part000.placeTerrainBlock
                  (Part000_terrain_mesh height) Hgrp _ _ []).
  - apply (fold_cells_shows true Part000.blockTypeAt height
             Part000.placeTerrainBlock (Part000_terrain_mesh height)
             Hwld Hgrp) with (children := []); try done.
    + apply NoDup_terrain_cells.
    + apply shows_empty.
Qed.

Lemma Synced_Game_initScene mounted g :
  Synced false g → Synced false (Game.initScene mounted g).
Proof.
  intros Hs. unfold Game.initScene. destruct mounted; simpl; [|done].
  unfold Game.generateTerrain.
  destruct (Game_generateTerrainWith_scene Game.height (-20) 20 (-20) 20
              (mkGame true true true (worldRef g) (Some []) (keysRef g)
                      (currentBlockType g) (isPointerLocked g)))
    as [Hg Hsh]; [simpl; eauto|].
  unfold Synced. by rewrite Hg.
Qed.

Lemma Synced_Part000_initScene mounted g :
  Synced true g → Synced true (Part000.initScene mounted g).
Proof.
  intros Hs. unfold Part000.initScene. destruct mounted; simpl; [|done].
  unfold Part000.generateTerrain.
  destruct (Part000_generateTerrainWith_scene Part000.height (-20) 20 (-20) 20
              (mkGame true true true (worldRef g) (Some []) (keysRef g)
                      (currentBlockType g) (isPointerLocked g)))
    as [Hg Hsh]; [simpl; eauto|].
  unfold Synced. by rewrite Hg.
Qed.

Lemma Synced_Game_handleClick button intersects g :
  Synced false g → hits_group g intersects →
  Synced false (Game.handleClick button intersects g).
Proof.
  intros Hs Hhit. unfold Game.handleClick.
  destruct (negb (isPointerLocked g) || negb (raycasterRef g)
            || negb (cameraRef g)
            || negb (bool_decide (is_Some (blocksGroupRef g)))); [done|].
  destruct intersects as [|intersect rest]; [done|].
  destruct (Hhit intersect) as (children & Hg & Hobj); [apply list_elem_of_here|].
  unfold Synced in Hs. rewrite Hg in Hs.
  destruct (face_normal intersect) as [normal|]; [|by unfold Synced; rewrite Hg].
  destruct (button =? 0).
  { unfold Game.removeBlockMesh. fold (mesh_key (object intersect)).
    destruct Hs as (Hnd & Hm & Hw).
    destruct (Hm _ Hobj) as (_ & b & Hb & _). rewrite Hb, Hg.
    destruct (remove_found_spec (mesh_position (object intersect)) children
                (object intersect)) as (_ & _ & Hfind);
      [by intros m Hm'; apply (Hm m Hm')|done|done|done|].
    destruct (find_mesh (mesh_position (object intersect)) children);
      [|done].
    unfold Synced. simpl. by apply shows_remove. }
  destruct (button =? 2); [|by unfold Synced; rewrite Hg].
  case_bool_decide as Hocc; [by unfold Synced; rewrite Hg|].
  unfold Synced, group_add. simpl. rewrite Hg. simpl.
  apply shows_insert; try done.
  - by apply eq_None_not_Some.
  - apply Game_newPosition_on_grid.
Qed.

Lemma Synced_Part000_handleClick button intersects g :
  Synced true g → hits_group g intersects → integer_normals intersects →
  Synced true (Part000.handleClick button intersects g).
Proof.
  intros Hs Hhit Hint. unfold Part000.handleClick.
  destruct (negb (isPointerLocked g) || negb (raycasterRef g)
            || negb (cameraRef g) || negb (sceneRef g)); [done|].
  cbv zeta. destruct (blocksGroupRef g) as [children|] eqn:Hg; [|done].
  destruct intersects as [|intersect rest]; [done|].
  destruct (Hhit intersect) as (children' & Hg' & Hobj); [apply list_elem_of_here|].
  rewrite Hg in Hg'. injection Hg' as <-.
  unfold Synced in Hs. rewrite Hg in Hs.
  pose proof Hs as (Hnd & Hm & Hw).
  destruct (Hm _ Hobj) as (Hgrid & b & Hb & Hpos & _ & Hud). rewrite Hud.
  destruct (button =? 0).
  { unfold Part000.removeBlockMesh. simpl. rewrite Hg, Hpos.
    destruct (remove_found_spec (mesh_position (object intersect)) children
                (object intersect)) as (_ & _ & Hfind);
      [by intros m Hm'; apply (Hm m Hm')|done|done|done|].
    destruct (find_mesh (mesh_position (object intersect)) children);
      [|done].
    unfold Synced. simpl. by apply shows_remove. }
  destruct (button =? 2); [|by unfold Synced; rewrite Hg].
  destruct (face_normal intersect) as [normal|] eqn:Hn;
    [|by unfold Synced; rewrite Hg].
  case_bool_decide as Hocc; [by unfold Synced; rewrite Hg|].
  unfold Synced, Part000.createBlockMesh, group_add. simpl. rewrite Hg. simpl.
  apply shows_insert; try done.
  - by apply eq_None_not_Some.
  - unfold Part000.newPosition. rewrite Hpos.
    apply Vector3_add_on_grid; [done|].
    apply (Hint intersect normal); [apply list_elem_of_here|done].
Qed.

Lemma Synced_Game_played g : Game_played g → Synced false g.
Proof.
  induction 1 as [|button intersects g _ IH Hhit|e g _ IH He].
  - done.
  - by apply Synced_Game_handleClick.
  - destruct e as [mounted|button intersects|code|code|mounted|locked]; simpl.
    + by apply Synced_Game_initScene.
    + by destruct (He button intersects).
    + unfold Game.handleKeyDown.
      repeat match goal with |- context [if ?c then _ else _] => destruct c end;
        done.
    + done.
    + unfold Game.requestPointerLock. by destruct mounted.
    + done.
Qed.

Lemma Synced_Part000_played g : Part000_played g → Synced true g.
Proof.
  induction 1 as [|button intersects g _ IH Hhit Hint|e g _ IH He].
  - done.
  - by apply Synced_Part000_handleClick.
  - destruct e as [mounted|button intersects|code|code|mounted rejected|locked];
      simpl.
    + by apply Synced_Part000_initScene.
    + by destruct (He button intersects).
    + unfold Part000.handleKeyDown. by destruct (Part000.blockTypeMap code).
    + done.
    + unfold Part000.requestPointerLock. by destruct (mounted && rejected).
    + done.
Qed.

(** X1 — Scene and world agree in [MinecraftGame.tsx]. In every state
    reached by events whose clicks hit meshes of the current group: without
    a group the world is empty; with one, no two meshes share a key, every
    mesh stands at the position of a stored block and has the colour of its
    type, every stored block has a mesh, and there are as many meshes as
    stored blocks. *)
Theorem X1_Game_scene_shows_world g :
  Game_played g →
  match blocksGroupRef g with
  | None => worldRef g = ∅
  | Some children =>
      shows false (worldRef g) children
      ∧ length children = size (worldRef g)
  end.
Proof.
  intros Hp. apply Synced_Game_played in Hp. unfold Synced in Hp.
  destruct (blocksGroupRef g); [|done].
  split; [done|]. by eapply shows_size.
Qed.

Lemma X1_Game_scene_shows_world_witness :
  ∃ children,
    blocksGroupRef Game_mounted = Some children
    ∧ length children = size (worldRef Game_mounted).
Proof.
  assert (Hp : Game_played Game_mounted).
  { apply (Game_played_other (Game.Effect true));
      [apply Game_played_initial|done]. }
  pose proof (X1_Game_scene_shows_world Game_mounted Hp) as H.
  destruct (Game_generateTerrainWith_group Game.height (-20) 20 (-20) 20
              (mkGame true true true ∅ (Some []) ∅ GRASS false)) as [c Hc];
    [simpl; eauto|].
  change (blocksGroupRef Game_mounted = Some c) in Hc.
  rewrite Hc in H. exists c. split; [exact Hc|exact (proj2 H)].
Defined.

(** X2 — Scene and world agree in the second variant. In every state
    reached by events whose clicks hit meshes of the current group on faces
    with integer normals, the same agreement holds, and every mesh carries
    in its [userData] the very block stored under its key. *)
Theorem X2_Part000_scene_shows_world g :
  Part000_played g →
  match blocksGroupRef g with
  | None => worldRef g = ∅
  | Some children =>
      shows true (worldRef g) children
      ∧ length children = size (worldRef g)
  end.
Proof.
  intros Hp. apply Synced_Part000_played in Hp. unfold Synced in Hp.
  destruct (blocksGroupRef g); [|done].
  split; [done|]. by eapply shows_size.
Qed.

Lemma X2_Part000_scene_shows_world_witness :
  ∃ children,
    blocksGroupRef Part000_mounted = Some children
    ∧ length children = size (worldRef Part000_mounted).
Proof.
  assert (Hp : Part000_played Part000_mounted).
  { apply (Part000_played_other (Part000.Effect true));
      [apply Part000_played_initial|done]. }
  pose proof (X2_Part000_scene_shows_world Part000_mounted Hp) as H.
  destruct (Part000_generateTerrainWith_group Part000.height (-20) 20 (-20) 20
              (mkGame true true true ∅ (Some []) ∅ GRASS false)) as [c Hc];
    [simpl; eauto|].
  change (blocksGroupRef Part000_mounted = Some c) in Hc.
  rewrite Hc in H. exists c. split; [exact Hc|exact (proj2 H)].
Defined.

(** X3 — The meshes of the terrain. After generation the group holds
    exactly one mesh per cell visited by the loops, in the order of the
    loops ([x] outermost, then [z], then [y] upwards), each at its cell with
    the colour of the cell's block (and, in the second variant, that block
    in its [userData]); the cells are pairwise distinct, they are the cells
    [0 <= y <= height] of the columns inside the bounds, and the world holds
    as many blocks as there are cells. *)
Theorem X3_terrain_meshes :
  (∀ height xmin xmax zmin zmax g,
     is_Some (blocksGroupRef g) →
     let g' := Game.generateTerrainWith height xmin xmax zmin zmax g in
     let cells := terrain_cells height xmin xmax zmin zmax in
     blocksGroupRef g' = Some (Game_terrain_mesh height <$> cells)
     ∧ size (worldRef g') = length cells
     ∧ NoDup cells
     ∧ ∀ x y z, (x, y, z) ∈ cells
                ↔ in_terrain height xmin xmax zmin zmax x y z)
  ∧
  (∀ height xmin xmax zmin zmax g,
     is_Some (blocksGroupRef g) →
     let g' := Part000.generateTerrainWith height xmin xmax zmin zmax g in
     let cells := terrain_cells height xmin xmax zmin zmax in
     blocksGroupRef g' = Some (Part000_terrain_mesh height <$> cells)
     ∧ size (worldRef g') = length cells
     ∧ NoDup cells
     ∧ ∀ x y z, (x, y, z) ∈ cells
                ↔ in_terrain height xmin xmax zmin zmax x y z).
Proof.
  split; intros height xmin xmax zmin zmax g Hg g' cells.
  - destruct (Game_generateTerrainWith_scene height xmin xmax zmin zmax g Hg)
      as [Hgrp Hsh].
    split; [done|]. split.
    { apply shows_size in Hsh. rewrite length_fmap in Hsh. done. }
    split; [apply NoDup_terrain_cells|].
    intros. apply elem_of_terrain_cells.
  - destruct (Part000_generateTerrainWith_scene height xmin xmax zmin zmax g Hg)
      as [Hgrp Hsh].
    split; [done|]. split.
    { apply shows_size in Hsh. rewrite length_fmap in Hsh. done. }
    split; [apply NoDup_terrain_cells|].
    intros. apply elem_of_terrain_cells.
Qed.

Lemma X3_terrain_meshes_witness :
  size (worldRef (Game.generateTerrainWith (λ x z, x + z) 0 1 0 1 scene_stale))
  = length (terrain_cells (λ x z, x + z) 0 1 0 1).
Proof.
  apply (proj1 X3_terrain_meshes (λ x z, x + z) 0 1 0 1 scene_stale).
  simpl. eauto.
Defined.

(** * Selecting the block type *)

Lemma Game_handleKeyDown_eq code g :
  Game.handleKeyDown code g
  = let k := <[code := true]> (keysRef g) in
    let held c := match k !! c with Some b => b | None => false end in
    mkGame (sceneRef g) (cameraRef g) (raycasterRef g) (worldRef g)
      (blocksGroupRef g) k
      (if held "Digit4" then WOOD
       else if held "Digit3" then STONE
       else if held "Digit2" then DIRT
       else if held "Digit1" then GRASS
       else currentBlockType g)
      (isPointerLocked g).
Proof.
  unfold Game.handleKeyDown, key_held. cbv zeta.
  set (k := <[code := true]> (keysRef g)). simpl.
  destruct (k !! "Digit1") as [[]|]; simpl;
    destruct (k !! "Digit2") as [[]|]; simpl;
    destruct (k !! "Digit3") as [[]|]; simpl;
    destruct (k !! "Digit4") as [[]|]; reflexivity.
Qed.

Lemma held_after_press (k : gmap string bool) code c :
  match <[code := true]> k !! c with Some b => b | None => false end
  = if decide (c = code) then true
    else match k !! c with Some b => b | None => false end.
Proof.
  rewrite lookup_insert.
  destruct (decide (code = c)), (decide (c = code)); congruence.
Qed.

(** X4 — Block selection by the digit keys. In [MinecraftGame.tsx] a key
    press records the key as held and then selects by the held digit keys,
    the highest digit winning: Wood if [Digit4] is held, else Stone if
    [Digit3], else Dirt if [Digit2], else Grass if [Digit1], else the
    selection stays; so while [Digit4] is held every key press, of any key,
    selects Wood. In the second variant the pressed key alone decides: a
    digit key selects its type whatever else is held, any other key leaves
    the selection. Neither handler touches the world or the meshes, and
    releasing a key never changes the selection. *)
Theorem X4_block_selection :
  (∀ code g,
     let g' := Game.handleKeyDown code g in
     currentBlockType g'
     = (if key_held "Digit4" g' then WOOD
        else if key_held "Digit3" g' then STONE
        else if key_held "Digit2" g' then DIRT
        else if key_held "Digit1" g' then GRASS
        else currentBlockType g)
     ∧ (∀ c, key_held c g' = if decide (c = code) then true else key_held c g)
     ∧ (key_held "Digit4" g = true → currentBlockType g' = WOOD)
     ∧ worldRef g' = worldRef g ∧ blocksGroupRef g' = blocksGroupRef g)
  ∧
  (∀ code g,
     let g' := Part000.handleKeyDown code g in
     currentBlockType g'
     = (if decide (code = "Digit1") then GRASS
        else if decide (code = "Digit2") then DIRT
        else if decide (code = "Digit3") then STONE
        else if decide (code = "Digit4") then WOOD
        else currentBlockType g)
     ∧ (∀ c, key_held c g' = if decide (c = code) then true else key_held c g)
     ∧ worldRef g' = worldRef g ∧ blocksGroupRef g' = blocksGroupRef g)
  ∧
  (∀ code g,
     currentBlockType (Game.handleKeyUp code g) = currentBlockType g
     ∧ currentBlockType (Part000.handleKeyUp code g) = currentBlockType g
     ∧ key_held code (Game.handleKeyUp code g) = false
     ∧ key_held code (Part000.handleKeyUp code g) = false).
Proof.
  split; [|split].
  - intros code g g'. unfold g'. rewrite Game_handleKeyDown_eq. cbv zeta.
    unfold key_held. simpl.
    split; [done|]. split; [intros c; apply held_after_press|].
    split; [|done].
    intros H4. rewrite held_after_press.
    destruct (decide ("Digit4" = code)); [done|].
    unfold key_held in H4. by rewrite H4.
  - intros code g g'. unfold g', Part000.handleKeyDown, Part000.blockTypeMap.
    split.
    { repeat case_bool_decide; repeat case_decide; simpl; congruence. }
    split.
    { intros c.
      assert (∀ s : Game, keysRef s = <[code := true]> (keysRef g) →
                key_held c s = if decide (c = code) then true else key_held c g)
        as Hk.
      { intros s Hs. unfold key_held. rewrite Hs, lookup_insert.
        destruct (decide (code = c)), (decide (c = code)); congruence. }
      repeat case_bool_decide; by apply Hk. }
    repeat case_bool_decide; done.
  - intros code g. split; [done|]. split; [done|].
    unfold key_held, Game.handleKeyUp, Part000.handleKeyUp. simpl.
    by rewrite lookup_insert_eq.
Qed.

Lemma X4_block_selection_witness :
  currentBlockType
    (Game.handleKeyDown "Digit1" (Game.handleKeyDown "Digit4" initial))
  = WOOD.
Proof.
  apply (proj1 X4_block_selection "Digit1"
           (Game.handleKeyDown "Digit4" initial)).
  reflexivity.
Defined.

(** * Removing twice *)

Lemma find_mesh_None p children :
  find_mesh p children = None
  ↔ ∀ m, m ∈ children → Vector3_equals (mesh_position m) p = false.
Proof.
  unfold find_mesh. split.
  - intros H m Hm. apply list_elem_of_In in Hm.
    by apply (find_none _ _ H m).
  - intros H. destruct (find _ children) as [m|] eqn:E; [|done].
    apply find_some in E as [Hm E]. apply list_elem_of_In in Hm.
    by rewrite (H m Hm) in E.
Qed.

Lemma find_mesh_removed children m0 :
  (∀ m, m ∈ children → Vector3_on_grid (mesh_position m)) →
  NoDup (mesh_key <$> children) → m0 ∈ children →
  find_mesh (mesh_position m0) (remove_found (mesh_position m0) children) = None.
Proof.
  intros Hgrid Hnd Hm0.
  destruct (remove_found_spec (mesh_position m0) children m0 Hgrid Hnd Hm0 eq_refl)
    as (Hin & _ & _).
  apply find_mesh_None. intros m Hm. apply Hin in Hm as [Hm Hk].
  destruct (Vector3_equals (mesh_position m) (mesh_position m0)) eqn:E; [|done].
  apply Vector3_equals_grid in E; [|by apply Hgrid..].
  destruct Hk. unfold mesh_key. by rewrite E.
Qed.

Lemma Game_removeBlockMesh_cases p g :
  (Game.removeBlockMesh p g = g
   ∧ (worldRef g !! position_key p = None ∨ blocksGroupRef g = None))
  ∨ (∃ children children',
       is_Some (worldRef g !! position_key p)
       ∧ blocksGroupRef g = Some children
       ∧ Game.removeBlockMesh p g
         = with_world (delete (position_key p) (worldRef g))
             (with_blocksGroup (Some children') g)).
Proof.
  unfold Game.removeBlockMesh.
  destruct (worldRef g !! position_key p) as [b|] eqn:Hb; [|left; auto].
  destruct (blocksGroupRef g) as [children|] eqn:Hg; [|left; auto].
  right. exists children.
  destruct (find_mesh p children).
  - eexists. split; [eauto|]. split; done.
  - exists children. split; [eauto|]. split; [done|].
    destruct g. simpl in *. by subst.
Qed.

Lemma Game_removeBlockMesh_flags p g :
  isPointerLocked (Game.removeBlockMesh p g) = isPointerLocked g
  ∧ raycasterRef (Game.removeBlockMesh p g) = raycasterRef g
  ∧ cameraRef (Game.removeBlockMesh p g) = cameraRef g
  ∧ bool_decide (is_Some (blocksGroupRef (Game.removeBlockMesh p g)))
    = bool_decide (is_Some (blocksGroupRef g)).
Proof.
  destruct (Game_removeBlockMesh_cases p g)
    as [[E _]|(children & children' & _ & Hg & E)]; rewrite E; [done|].
  simpl. rewrite Hg. split; [done|]. split; [done|]. split; [done|].
  by rewrite !bool_decide_eq_true_2 by eauto.
Qed.

Lemma Game_removeBlockMesh_idemp p g :
  Game.removeBlockMesh p (Game.removeBlockMesh p g) = Game.removeBlockMesh p g.
Proof.
  destruct (Game_removeBlockMesh_cases p g)
    as [[E _]|(children & children' & _ & _ & E)].
  - by rewrite !E.
  - rewrite E. unfold Game.removeBlockMesh at 1. simpl.
    by rewrite lookup_delete_eq.
Qed.

(** X5 — Removing twice is removing once. In [MinecraftGame.tsx],
    [removeBlockMesh] applied twice to the same position gives the state of
    one application, and so does a left click repeated with the same hit:
    the second finds the key gone and changes nothing. In the second variant
    a repeated left click leaves the world map of the first; it leaves the
    whole state of the first when scene and world agree and the hit mesh
    belongs to the group. *)
Theorem X5_remove_twice :
  (∀ p g,
     Game.removeBlockMesh p (Game.removeBlockMesh p g)
     = Game.removeBlockMesh p g)
  ∧
  (∀ intersects g,
     Game.handleClick 0 intersects (Game.handleClick 0 intersects g)
     = Game.handleClick 0 intersects g)
  ∧
  (∀ intersects g,
     worldRef (Part000.handleClick 0 intersects
                 (Part000.handleClick 0 intersects g))
     = worldRef (Part000.handleClick 0 intersects g))
  ∧
  (∀ intersects g,
     Synced true g → hits_group g intersects →
     Part000.handleClick 0 intersects (Part000.handleClick 0 intersects g)
     = Part000.handleClick 0 intersects g).
Proof.
  split; [apply Game_removeBlockMesh_idemp|]. split; [|split].
  - intros intersects g. unfold Game.handleClick.
    destruct (negb (isPointerLocked g) || negb (raycasterRef g)
              || negb (cameraRef g)
              || negb (bool_decide (is_Some (blocksGroupRef g)))) eqn:Hguard.
    { by rewrite Hguard. }
    destruct intersects as [|intersect rest]; [by rewrite Hguard|].
    destruct (face_normal intersect) as [normal|]; [|by rewrite Hguard].
    change (0 =? 0) with true. cbv iota.
    set (p := mesh_position (object intersect)).
    destruct (Game_removeBlockMesh_flags p g) as (-> & -> & -> & ->).
    rewrite Hguard. apply Game_removeBlockMesh_idemp.
  - intros intersects g. unfold Part000.handleClick.
    destruct (negb (isPointerLocked g) || negb (raycasterRef g)
              || negb (cameraRef g) || negb (sceneRef g)) eqn:Hguard.
    { by rewrite Hguard. }
    cbv zeta. destruct (blocksGroupRef g) as [children|] eqn:Hg;
      [|by rewrite Hguard, Hg].
    destruct intersects as [|intersect rest]; [by rewrite Hguard, Hg|].
    change (0 =? 0) with true. cbv iota.
    destruct (userData_block (object intersect)) as [clickedBlock|] eqn:Hu;
      [|rewrite Hguard, Hg; cbv iota; by rewrite Hu].
    set (g1 := Part000.removeBlockMesh _ _).
    assert (Hf : isPointerLocked g1 = isPointerLocked g
                 ∧ raycasterRef g1 = raycasterRef g
                 ∧ cameraRef g1 = cameraRef g ∧ sceneRef g1 = sceneRef g
                 ∧ is_Some (blocksGroupRef g1)).
    { unfold g1, Part000.removeBlockMesh. simpl. rewrite Hg.
      destruct (find_mesh _ children); simpl; rewrite ?Hg; eauto 10. }
    destruct Hf as (-> & -> & -> & -> & [c1 ->]). rewrite Hguard.
    cbv iota. rewrite Hu.
    rewrite !worldRef_Part000_removeBlockMesh. simpl.
    unfold g1. rewrite worldRef_Part000_removeBlockMesh. simpl.
    apply delete_id, lookup_delete_eq.
  - intros intersects g Hs Hhit.
    destruct (negb (isPointerLocked g) || negb (raycasterRef g)
              || negb (cameraRef g) || negb (sceneRef g)) eqn:Hguard.
    { assert (E : Part000.handleClick 0 intersects g = g)
        by (unfold Part000.handleClick; by rewrite Hguard).
      by rewrite !E. }
    destruct (blocksGroupRef g) as [children|] eqn:Hg.
    2:{ assert (E : Part000.handleClick 0 intersects g = g)
          by (unfold Part000.handleClick; by rewrite Hguard, Hg).
        by rewrite !E. }
    destruct intersects as [|intersect rest].
    { assert (E : Part000.handleClick 0 [] g = g)
        by (unfold Part000.handleClick; by rewrite Hguard, Hg).
      by rewrite !E. }
    destruct (Hhit intersect) as (children' & Hg' & Hobj);
      [apply list_elem_of_here|].
    rewrite Hg in Hg'. injection Hg' as <-.
    unfold Synced in Hs. rewrite Hg in Hs. destruct Hs as (Hnd & Hm & Hw).
    destruct (Hm _ Hobj) as (_ & b & Hb & Hpos & _ & Hud).
    set (p := mesh_position (object intersect)) in *.
    assert (Hfind : find_mesh p children ≠ None).
    { apply (remove_found_spec p children (object intersect)); try done.
      by intros m Hm'; apply (Hm m Hm'). }
    set (g1 := with_blocksGroup (Some (remove_found p children))
                 (with_world (delete (position_key p) (worldRef g)) g)).
    assert (E : Part000.handleClick 0 (intersect :: rest) g = g1).
    { unfold Part000.handleClick. rewrite Hguard, Hg.
      change (0 =? 0) with true. cbv iota zeta. rewrite Hud, Hpos.
      unfold Part000.removeBlockMesh. simpl. rewrite Hg.
      by destruct (find_mesh p children). }
    rewrite E. unfold Part000.handleClick. simpl. rewrite Hguard.
    rewrite Hud, Hpos. unfold Part000.removeBlockMesh. simpl.
    assert (Hrm : find_mesh p (remove_found p children) = None).
    { apply (find_mesh_removed children (object intersect)); try done.
      by intros m Hm'; apply (Hm m Hm'). }
    rewrite Hrm.
    rewrite (delete_id (delete (position_key p) (worldRef g)))
      by apply lookup_delete_eq.
    done.
Qed.

Lemma X5_remove_twice_witness :
  Part000.handleClick 0 [Part000_hit_top]
    (Part000.handleClick 0 [Part000_hit_top] Part000_single)
  = Part000.handleClick 0 [Part000_hit_top] Part000_single.
Proof.
  apply (proj2 (proj2 (proj2 X5_remove_twice))).
  - unfold Synced. simpl. split; [|split].
    + apply NoDup_singleton.
    + intros m Hm. apply list_elem_of_singleton in Hm as ->.
      split; [apply Vector3_of_Z_on_grid|].
      exists origin_block. repeat split; reflexivity.
    + intros k b Hk. apply lookup_singleton_Some in Hk as [<- <-].
      eexists. split; [apply list_elem_of_here|reflexivity].
  - intros i Hi. apply list_elem_of_singleton in Hi as ->.
    eexists. split; [reflexivity|apply list_elem_of_here].
Defined.

(** * What generation and mounting leave alone *)

Lemma same_controls_refl g : same_controls g g.
Proof. by repeat split. Qed.

Lemma same_controls_group_add mesh g0 g :
  same_controls g0 g → same_controls g0 (group_add mesh g).
Proof. unfold group_add. by destruct (blocksGroupRef g). Qed.

Lemma same_controls_Game_generateTerrainWith height xmin xmax zmin zmax g :
  same_controls g (Game.generateTerrainWith height xmin xmax zmin zmax g).
Proof.
  unfold Game.generateTerrainWith. destruct (blocksGroupRef g);
    [|apply same_controls_refl].
  apply (for_range_inv (same_controls g)); [by repeat split|].
  intros x s _ Hs. apply (for_range_inv (same_controls g)); [done|].
  intros z s' _ Hs'. simpl.
  apply (for_range_inv (same_controls g)); [done|].
  intros y s'' _ Hs''. unfold Game.placeTerrainBlock.
  by apply same_controls_group_add.
Qed.

Lemma same_controls_Part000_generateTerrainWith height xmin xmax zmin zmax g :
  same_controls g (Part000.generateTerrainWith height xmin xmax zmin zmax g).
Proof.
  unfold Part000.generateTerrainWith. destruct (blocksGroupRef g);
    [|apply same_controls_refl].
  apply (for_range_inv (same_controls g)); [by repeat split|].
  intros x s _ Hs. apply (for_range_inv (same_controls g)); [done|].
  intros z s' _ Hs'. simpl.
  apply (for_range_inv (same_controls g)); [done|].
  intros y s'' _ Hs''. unfold Part000.placeTerrainBlock, Part000.createBlockMesh.
  simpl. destruct (blocksGroupRef s''); [|done].
  by apply same_controls_group_add.
Qed.

Lemma Vector3_add_of_Z x y z nx ny nz :
  Vector3_add (Vector3_of_Z x y z) (Vector3_of_Z nx ny nz)
  = Vector3_of_Z (x + nx) (y + ny) (z + nz).
Proof.
  unfold Vector3_add, Vector3_of_Z, Qplus, inject_Z. simpl.
  f_equal; f_equal; lia.
Qed.

Lemma Part000_place_blocked g intersect rest normal clickedBlock :
  face_normal intersect = Some normal →
  userData_block (object intersect) = Some clickedBlock →
  is_Some (worldRef g
             !! position_key (Vector3_add (position clickedBlock) normal)) →
  Part000.handleClick 2 (intersect :: rest) g = g.
Proof.
  intros Hn Hu Hocc. unfold Part000.handleClick.
  destruct (negb (isPointerLocked g) || negb (raycasterRef g)
            || negb (cameraRef g) || negb (sceneRef g)); [done|].
  destruct (blocksGroupRef g); [|done].
  rewrite Hn, Hu. simpl. by rewrite bool_decide_eq_true_2.
Qed.

(** X8 — Placing on generated terrain in the second variant. After
    generation, a right click on the mesh of a terrain cell with a face
    normal of integer coordinates changes nothing when the neighbouring
    cell in the direction of the normal holds a terrain block; otherwise,
    with the pointer locked and the scene set up, it stores one block of
    the selected type at the neighbouring cell, under the key of that cell,
    and leaves every other entry. *)
Theorem X8_Part000_place_on_terrain :
  ∀ height xmin xmax zmin zmax g x y z nx ny nz point rest,
    is_Some (blocksGroupRef g) →
    in_terrain height xmin xmax zmin zmax x y z →
    let terrain := Part000.generateTerrainWith height xmin xmax zmin zmax g in
    let hit :=
      mkIntersection point (Some (Vector3_of_Z nx ny nz))
                     (Part000_terrain_mesh height (x, y, z)) in
    (in_terrain height xmin xmax zmin zmax (x + nx) (y + ny) (z + nz) →
     Part000.handleClick 2 (hit :: rest) terrain = terrain)
    ∧
    (¬ in_terrain height xmin xmax zmin zmax (x + nx) (y + ny) (z + nz) →
     isPointerLocked g = true → raycasterRef g = true → cameraRef g = true →
     sceneRef g = true →
     worldRef (Part000.handleClick 2 (hit :: rest) terrain)
     = <[key_of_Z (x + nx) (y + ny) (z + nz)
         := mkBlock (currentBlockType g)
                    (Vector3_of_Z (x + nx) (y + ny) (z + nz))]>
         (worldRef terrain)).
Proof.
  intros height xmin xmax zmin zmax g x y z nx ny nz point rest Hg Hc
    terrain hit.
  pose proof (Part000_terrain_cells height xmin xmax zmin zmax g Hg) as Hcells.
  fold terrain in Hcells.
  destruct (same_controls_Part000_generateTerrainWith height xmin xmax zmin zmax g)
    as (Hs & Hcam & Hr & _ & Ht & Hl).
  fold terrain in Hs, Hcam, Hr, Ht, Hl.
  split.
  - intros Hn. apply (Part000_place_blocked terrain hit rest
      (Vector3_of_Z nx ny nz)
      (mkBlock (Part000.blockTypeAt y (height x z)) (Vector3_of_Z x y z)));
      [done|done|].
    simpl. rewrite Vector3_add_of_Z.
    change (position_key (Vector3_of_Z (x + nx) (y + ny) (z + nz)))
      with (key_of_Z (x + nx) (y + ny) (z + nz)).
    rewrite (holds_cells_lookup _ _ _ _ _ _ Hcells Hn). eauto.
  - intros Hn HL HR HC HS.
    pose proof (Part000_place_adjacent terrain hit rest
      (mkBlock (Part000.blockTypeAt y (height x z)) (Vector3_of_Z x y z))
      (Vector3_of_Z nx ny nz)) as Hplace.
    simpl in Hplace. rewrite Vector3_add_of_Z in Hplace.
    rewrite Ht in Hplace. apply Hplace; try congruence.
    + by apply Part000_generateTerrainWith_group.
    + by apply (holds_cells_lookup_None _ _ _ _ _ _ Hcells).
Qed.

Lemma X8_Part000_place_on_terrain_witness :
  Part000.handleClick 2
    [mkIntersection (mkVector3 0 (1 # 2) 0) (Some (Vector3_of_Z 0 1 0))
       (Part000_terrain_mesh (λ _ _, 1) (0, 0, 0))]
    (Part000.generateTerrainWith (λ _ _, 1) 0 0 0 0 scene_ready)
  = Part000.generateTerrainWith (λ _ _, 1) 0 0 0 0 scene_ready.
Proof.
  apply (proj1 (X8_Part000_place_on_terrain (λ _ _, 1) 0 0 0 0 scene_ready
                  0 0 0 0 1 0 (mkVector3 0 (1 # 2) 0) []
                  ltac:(simpl; eauto) ltac:(unfold in_terrain; lia))).
  unfold in_terrain. lia.
Defined.

(** X9 — Mounting. Without a mount point [initScene] does nothing. With
    one it sets the scene, camera, raycaster and group refs and leaves
    held keys, selected type and lock state as they were; the world and the
    meshes it ends with are those of the first mount, whatever the state
    held before: blocks placed or removed since are gone. Both variants. *)
Theorem X9_initScene :
  (∀ g, Game.initScene false g = g ∧ Part000.initScene false g = g)
  ∧
  (∀ g,
     let g' := Game.initScene true g in
     sceneRef g' = true ∧ cameraRef g' = true ∧ raycasterRef g' = true
     ∧ keysRef g' = keysRef g ∧ currentBlockType g' = currentBlockType g
     ∧ isPointerLocked g' = isPointerLocked g
     ∧ worldRef g' = worldRef Game_mounted
     ∧ blocksGroupRef g' = blocksGroupRef Game_mounted
     ∧ is_Some (blocksGroupRef g'))
  ∧
  (∀ g,
     let g' := Part000.initScene true g in
     sceneRef g' = true ∧ cameraRef g' = true ∧ raycasterRef g' = true
     ∧ keysRef g' = keysRef g ∧ currentBlockType g' = currentBlockType g
     ∧ isPointerLocked g' = isPointerLocked g
     ∧ worldRef g' = worldRef Part000_mounted
     ∧ blocksGroupRef g' = blocksGroupRef Part000_mounted
     ∧ is_Some (blocksGroupRef g')).
Proof.
  split; [done|]. split.
  - intros g g'. unfold g', Game.initScene, Game.generateTerrain. simpl.
    set (g0 := mkGame true true true (worldRef g) (Some []) (keysRef g)
                      (currentBlockType g) (isPointerLocked g)).
    destruct (same_controls_Game_generateTerrainWith Game.height (-20) 20 (-20) 20 g0)
      as (-> & -> & -> & -> & -> & ->).
    destruct (Game_generateTerrainWith_same Game.height (-20) 20 (-20) 20 g0
                (mkGame true true true ∅ (Some []) ∅ GRASS false))
      as [Hw Hb]; [simpl; eauto..|].
    repeat (split; [done|]).
    apply Game_generateTerrainWith_group. simpl. eauto.
  - intros g g'. unfold g', Part000.initScene, Part000.generateTerrain. simpl.
    set (g0 := mkGame true true true (worldRef g) (Some []) (keysRef g)
                      (currentBlockType g) (isPointerLocked g)).
    destruct (same_controls_Part000_generateTerrainWith Part000.height
                (-20) 20 (-20) 20 g0)
      as (-> & -> & -> & -> & -> & ->).
    destruct (Part000_generateTerrainWith_same Part000.height (-20) 20 (-20) 20 g0
                (mkGame true true true ∅ (Some []) ∅ GRASS false))
      as [Hw Hb]; [simpl; eauto..|].
    repeat (split; [done|]).
    apply Part000_generateTerrainWith_group. simpl. eauto.
Qed.

(** * Keys of grid positions *)

Lemma dash_not_digit : ¬ is_digit "-"%char.
Proof. intros [n Hn]. unfold pretty_N_char in Hn. by repeat case_match. Qed.

Lemma occurs_pretty_nonneg c (n : Z) :
  0 ≤ n → ¬ is_digit c → occurs c (pretty n) = false.
Proof.
  intros Hn Hc. destruct n as [|p|p]; [| |lia].
  - simpl. rewrite bool_decide_eq_false_2; [done|].
    intros E. apply Hc. by exists 0%N.
  - by apply (occurs_pretty_N c (N.pos p)).
Qed.

Lemma fraction_digits_S fuel f :
  fraction_digits (S fuel) f
  = if Qeq_bool f 0 then ""
    else String (pretty_N_char (Z.to_N (Qfloor (f * 10))))
                (fraction_digits fuel (f * 10 - inject_Z (Qfloor (f * 10)))%Q).
Proof. reflexivity. Qed.

Lemma fraction_digits_half f :
  Qnum f * 2 = Z.pos (Qden f) → fraction_digits 2 f = "5".
Proof.
  destruct f as [n d]. cbn [Qnum Qden]. intros Hf.
  assert (H0 : Qeq_bool (n # d) 0 = false).
  { apply not_true_iff_false. intros E. apply Qeq_bool_iff in E.
    unfold Qeq in E. simpl in E. lia. }
  assert (Hfl : Qfloor ((n # d) * 10) = 5).
  { unfold Qfloor, Qmult. cbn [Qnum Qden].
    replace (n * 10) with (5 * Z.pos (d * 1)) by lia.
    apply Z.div_mul. lia. }
  assert (H1 : Qeq_bool ((n # d) * 10 - inject_Z 5) 0 = true).
  { apply Qeq_bool_iff. unfold Qeq, Qminus, Qplus, Qmult, Qopp, inject_Z.
    cbn [Qnum Qden]. lia. }
  rewrite !fraction_digits_S, H0, Hfl, H1. reflexivity.
Qed.

Lemma Number_toString_half a :
  Z.odd a = true →
  Number_toString (a # 2)
  = (if Qlt_le_dec (a # 2) 0 then "-" else "") +:+ pretty (Z.abs a / 2) +:+ ".5".
Proof.
  intros Ho. unfold Number_toString.
  apply Z.odd_spec in Ho as [m Hm].
  assert (Hmod : Z.abs a = 2 * (Z.abs a / 2) + 1).
  { pose proof (Z.div_mod (Z.abs a) 2 ltac:(lia)).
    pose proof (Z.mod_pos_bound (Z.abs a) 2 ltac:(lia)).
    assert (Z.abs a mod 2 ≠ 0); [|lia].
    intros E. apply Z.mod_divide in E; [|lia]. destruct E as [k Hk]. lia. }
  change (Qfloor (Qabs (a # 2))) with (Z.abs a / 2).
  set (f := (Qabs (a # 2) - inject_Z (Z.abs a / 2))%Q).
  assert (Hf : Qnum f * 2 = Z.pos (Qden f)).
  { unfold f, Qabs, Qminus, Qplus, Qopp, inject_Z. simpl. lia. }
  assert (H0 : Qeq_bool f 0 = false).
  { apply not_true_iff_false. intros E. apply Qeq_bool_iff in E.
    unfold Qeq in E. simpl in E. lia. }
  rewrite H0. simpl (Pos.size_nat _).
  by rewrite (fraction_digits_half f Hf).
Qed.

Lemma Number_toString_grid_inj q q' :
  on_grid q → on_grid q' → Number_toString q = Number_toString q' → q = q'.
Proof.
  assert (Hdot_int : ∀ n : Z, occurs "." (Number_toString (n # 1)) = false).
  { intros n. change (n # 1) with (inject_Z n). rewrite Number_toString_Z.
    apply occurs_pretty_Z; [apply dot_not_digit|done]. }
  assert (Hdot_half : ∀ a, Z.odd a = true →
                           occurs "." (Number_toString (a # 2)) = true).
  { intros a Ha. rewrite Number_toString_half, !occurs_app by done.
    simpl. by rewrite !orb_true_r. }
  destruct q as [a d], q' as [a' d']. unfold on_grid. simpl.
  intros [->|[-> Ho]] [->|[-> Ho']] E.
  - change (a # 1) with (inject_Z a) in E.
    change (a' # 1) with (inject_Z a') in E.
    rewrite !Number_toString_Z in E. by apply (inj pretty) in E as ->.
  - pose proof (Hdot_int a) as H1. rewrite E, Hdot_half in H1; done.
  - pose proof (Hdot_int a') as H1. rewrite <- E, Hdot_half in H1; done.
  - rewrite !Number_toString_half in E by done.
    assert (Habs : ∀ b, Z.odd b = true → Z.abs b = 2 * (Z.abs b / 2) + 1).
    { intros b Hb. apply Z.odd_spec in Hb as [m Hm].
      pose proof (Z.div_mod (Z.abs b) 2 ltac:(lia)).
      pose proof (Z.mod_pos_bound (Z.abs b) 2 ltac:(lia)).
      assert (Z.abs b mod 2 ≠ 0); [|lia].
      intros E'. apply Z.mod_divide in E'; [|lia]. destruct E' as [k Hk]. lia. }
    assert (Hnd : ∀ b, occurs "." (pretty (Z.abs b / 2)) = false).
    { intros b. apply occurs_pretty_nonneg; [|apply dot_not_digit].
      apply Z.div_pos; lia. }
    assert (Hdash : ∀ b, occurs "-" (pretty (Z.abs b / 2) +:+ ".5") = false).
    { intros b. rewrite occurs_app, occurs_pretty_nonneg;
        [done| |apply dash_not_digit].
      apply Z.div_pos; lia. }
    pose proof (Habs a Ho). pose proof (Habs a' Ho').
    destruct (Qlt_le_dec (a # 2) 0) as [Hl|Hl],
             (Qlt_le_dec (a' # 2) 0) as [Hl'|Hl'];
      unfold Qlt, Qle in Hl, Hl'; simpl in Hl, Hl'.
    + change ("-" +:+ ?s) with (String "-" s) in E. injection E as E.
      apply (app_sep_inj "." _ _ "5" "5") in E as [E _]; [|done..].
      apply (inj pretty) in E. f_equal. lia.
    + change ("-" +:+ ?s) with (String "-" s) in E.
      change ("" +:+ ?s) with s in E.
      pose proof (Hdash a') as Hd. rewrite <- E in Hd. done.
    + change ("-" +:+ ?s) with (String "-" s) in E.
      change ("" +:+ ?s) with s in E.
      pose proof (Hdash a) as Hd. rewrite E in Hd. done.
    + change ("" +:+ ?s) with s in E.
      apply (app_sep_inj "." _ _ "5" "5") in E as [E _]; [|done..].
      apply (inj pretty) in E. f_equal. lia.
Qed.

Lemma occurs_comma_grid q : on_grid q → occurs "," (Number_toString q) = false.
Proof.
  destruct q as [a d]. unfold on_grid. simpl. intros [->|[-> Ho]].
  - change (a # 1) with (inject_Z a). rewrite Number_toString_Z.
    apply occurs_pretty_Z; [apply comma_not_digit|done].
  - rewrite Number_toString_half, !occurs_app by done.
    rewrite occurs_pretty_nonneg;
      [|apply Z.div_pos; lia|apply comma_not_digit].
    by destruct (Qlt_le_dec _ _).
Qed.

Lemma position_key_grid_inj a b :
  Vector3_on_grid a → Vector3_on_grid b →
  position_key a = position_key b → a = b.
Proof.
  destruct a as [ax ay az], b as [bx by' bz].
  intros (Hax & Hay & Haz) (Hbx & Hby & Hbz). simpl in *.
  unfold position_key, key_of. simpl. intros E.
  apply (app_sep_inj "," (Number_toString ax) (Number_toString bx)) in E
    as [Ex E]; [|by apply occurs_comma_grid..].
  apply (app_sep_inj "," (Number_toString ay) (Number_toString by')) in E
    as [Ey Ez]; [|by apply occurs_comma_grid..].
  f_equal; by apply Number_toString_grid_inj.
Qed.

Lemma shows_stored_block ud w children k b :
  shows ud w children → w !! k = Some b →
  Vector3_on_grid (position b) ∧ k = position_key (position b).
Proof.
  intros (_ & Hm & Hw) Hk. destruct (Hw k b Hk) as (m & Hin & <-).
  destruct (Hm m Hin) as (Hg & b' & Hb' & Hpos & _).
  rewrite Hk in Hb'. injection Hb' as <-. rewrite Hpos. done.
Qed.

Lemma Synced_occupancy_exact ud g p :
  Synced ud g → Vector3_on_grid p →
  (is_Some (worldRef g !! position_key p)
   ↔ ∃ k b, worldRef g !! k = Some b ∧ position b = p).
Proof.
  intros Hs Hp. split.
  - intros [b Hb]. exists (position_key p), b. split; [done|].
    unfold Synced in Hs. destruct (blocksGroupRef g) as [children|].
    + destruct (shows_stored_block _ _ _ _ _ Hs Hb) as [Hg Hk].
      symmetry. by apply position_key_grid_inj.
    + by rewrite Hs, lookup_empty in Hb.
  - intros (k & b & Hb & <-).
    unfold Synced in Hs. destruct (blocksGroupRef g) as [children|].
    + destruct (shows_stored_block _ _ _ _ _ Hs Hb) as [_ ->]. eauto.
    + by rewrite Hs, lookup_empty in Hb.
Qed.

(** X11 — The key of a position. On the grid (coordinates that are
    integers or integers plus one half) the template key is injective: two
    positions with the same key are the same position. Hence, in every
    state reached by play in either variant, the test [has(key)] for a grid
    position answers exactly whether a block with that position is
    stored. *)
Theorem X11_position_key_exact :
  (∀ a b, Vector3_on_grid a → Vector3_on_grid b →
          position_key a = position_key b → a = b)
  ∧
  (∀ g p, Game_played g → Vector3_on_grid p →
          (is_Some (worldRef g !! position_key p)
           ↔ ∃ k b, worldRef g !! k = Some b ∧ position b = p))
  ∧
  (∀ g p, Part000_played g → Vector3_on_grid p →
          (is_Some (worldRef g !! position_key p)
           ↔ ∃ k b, worldRef g !! k = Some b ∧ position b = p)).
Proof.
  split; [apply position_key_grid_inj|]. split.
  - intros g p Hg. apply Synced_occupancy_exact with (ud := false).
    by apply Synced_Game_played.
  - intros g p Hg. apply Synced_occupancy_exact with (ud := true).
    by apply Synced_Part000_played.
Qed.

Lemma position_key_of_Z x y z :
  position_key (Vector3_of_Z x y z) = key_of_Z x y z.
Proof. reflexivity. Qed.


Lemma X11_position_key_exact_witness :
  ∃ k b, worldRef Game_mounted !! k = Some b
         ∧ position b = Vector3_of_Z 0 0 0.
Proof.
  assert (Hp : Game_played Game_mounted).
  { apply (Game_played_other (Game.Effect true));
      [apply Game_played_initial|done]. }
  assert (Hk : worldRef Game_mounted !! key_of_Z 0 0 0
               = Some (terrain_block Game.blockTypeAt Game.height 0 0 0)).
  { apply (holds_cells_lookup _ (in_terrain Game.height (-20) 20 (-20) 20)).
    - apply Game_terrain_cells. simpl. eauto.
    - unfold in_terrain. rewrite Game_height_0_0. lia. }
  assert (Hocc : is_Some (worldRef Game_mounted
                            !! position_key (Vector3_of_Z 0 0 0))).
  { rewrite position_key_of_Z, Hk. eauto. }
  exact (proj1 (proj1 (proj2 X11_position_key_exact) Game_mounted
                  (Vector3_of_Z 0 0 0) Hp (Vector3_of_Z_on_grid 0 0 0)) Hocc).
Defined.

(** * The extent of the generated terrain *)

Lemma height_bounds x z :
  -1 ≤ Game.height x z ≤ 5 ∧ 2 ≤ Part000.height x z ≤ 8.
Proof.
  unfold Game.height, Part000.height. pose proof (noise_bounds x z). lia.
Qed.

(** X12 — The extent of the generated terrain. Every block stored by
    [generateTerrain] stands on an integer cell with [x] and [z] between
    -20 and 20 and [y] between 0 and 5 ([MinecraftGame.tsx]) or 0 and 8
    (second variant); the top face of the highest possible block is below
    the height 10 at which [initScene] puts the camera. In the second
    variant every column inside the bounds holds at least the three blocks
    [y = 0, 1, 2]: that terrain has no hole. *)
Theorem X12_terrain_extent :
  (∀ g k b,
     is_Some (blocksGroupRef g) →
     worldRef (Game.generateTerrain g) !! k = Some b →
     ∃ x y z, position b = Vector3_of_Z x y z ∧ k = key_of_Z x y z
              ∧ -20 ≤ x ≤ 20 ∧ -20 ≤ z ≤ 20 ∧ 0 ≤ y ≤ 5
              ∧ (IZR y + 0.5 < cy camera_start)%R)
  ∧
  (∀ g k b,
     is_Some (blocksGroupRef g) →
     worldRef (Part000.generateTerrain g) !! k = Some b →
     ∃ x y z, position b = Vector3_of_Z x y z ∧ k = key_of_Z x y z
              ∧ -20 ≤ x ≤ 20 ∧ -20 ≤ z ≤ 20 ∧ 0 ≤ y ≤ 8
              ∧ (IZR y + 0.5 < cy camera_start)%R)
  ∧
  (∀ g x y z,
     is_Some (blocksGroupRef g) →
     -20 ≤ x ≤ 20 → -20 ≤ z ≤ 20 → 0 ≤ y ≤ 2 →
     is_Some (worldRef (Part000.generateTerrain g) !! key_of_Z x y z)).
Proof.
  split; [|split].
  - intros g k b Hg Hk.
    apply (Game_terrain_cells Game.height (-20) 20 (-20) 20 g Hg) in Hk
      as (x & y & z & (Hx & Hz & Hy) & -> & ->).
    destruct (height_bounds x z) as [Hh _].
    exists x, y, z. repeat (split; [done || lia|]).
    unfold camera_start. cbn [cy].
    assert (IZR y <= IZR 5)%R by (apply IZR_le; lia). lra.
  - intros g k b Hg Hk.
    apply (Part000_terrain_cells Part000.height (-20) 20 (-20) 20 g Hg) in Hk
      as (x & y & z & (Hx & Hz & Hy) & -> & ->).
    destruct (height_bounds x z) as [_ Hh].
    exists x, y, z. repeat (split; [done || lia|]).
    unfold camera_start. cbn [cy].
    assert (IZR y <= IZR 8)%R by (apply IZR_le; lia). lra.
  - intros g x y z Hg Hx Hz Hy.
    pose proof (Part000_terrain_cells Part000.height (-20) 20 (-20) 20 g Hg)
      as Hcells.
    destruct (height_bounds x z) as [_ Hh].
    unfold Part000.generateTerrain.
    rewrite (holds_cells_lookup _ _ _ x y z Hcells); [eauto|].
    unfold in_terrain. lia.
Qed.

Lemma X12_terrain_extent_witness :
  is_Some (worldRef (Part000.generateTerrain scene_ready) !! key_of_Z 0 2 0).
Proof.
  apply (proj2 (proj2 X12_terrain_extent)); [simpl; eauto|lia..].
Defined.

(** * Storing a block *)







Lemma Game_place_free g intersect rest normal :
  isPointerLocked g = true → raycasterRef g = true → cameraRef g = true →
  is_Some (blocksGroupRef g) →
  face_normal intersect = Some normal →
  worldRef g !! position_key (Game.newPosition (point intersect) normal) = None →
  worldRef (Game.handleClick 2 (intersect :: rest) g)
  = <[position_key (Game.newPosition (point intersect) normal)
      := mkBlock (currentBlockType g)
                 (Game.newPosition (point intersect) normal)]> (worldRef g).
Proof.
  intros HL HR HC HG Hn Hfree. unfold Game.handleClick.
  rewrite HL, HR, HC, (bool_decide_eq_true_2 _ HG), Hn. simpl.
  rewrite bool_decide_eq_false_2 by (rewrite Hfree; by intros [? ?]).
  by rewrite worldRef_group_add.
Qed.


Lemma Game_mounted_eq :
  Game_mounted
  = Game.generateTerrainWith Game.height (-20) 20 (-20) 20
      (mkGame true true true ∅ (Some []) ∅ GRASS false).
Proof. reflexivity. Qed.

Lemma Part000_mounted_eq :
  Part000_mounted
  = Part000.generateTerrainWith Part000.height (-20) 20 (-20) 20
      (mkGame true true true ∅ (Some []) ∅ GRASS false).
Proof. reflexivity. Qed.

(** What [initScene] leaves behind when the component is mounted. *)
Lemma Game_initScene_ready g :
  let g' := Game.initScene true g in
  sceneRef g' = true ∧ cameraRef g' = true ∧ raycasterRef g' = true
  ∧ keysRef g' = keysRef g ∧ currentBlockType g' = currentBlockType g
  ∧ isPointerLocked g' = isPointerLocked g
  ∧ same_blocks g' Game_mounted
  ∧ is_Some (blocksGroupRef g')
  ∧ holds_cells (terrain_block Game.blockTypeAt Game.height)
                (in_terrain Game.height (-20) 20 (-20) 20) (worldRef g').
Proof.
  intros g'. unfold g', Game.initScene, Game.generateTerrain. cbn [negb].
  set (g0 := mkGame true true true (worldRef g) (Some []) (keysRef g)
                    (currentBlockType g) (isPointerLocked g)).
  destruct (same_controls_Game_generateTerrainWith Game.height (-20) 20 (-20) 20 g0)
    as (Hs & Hc & Hr & Hk & Ht & Hl).
  split; [exact Hs|]. split; [exact Hc|]. split; [exact Hr|].
  split; [exact Hk|]. split; [exact Ht|]. split; [exact Hl|].
  split; [|split].
  - rewrite Game_mounted_eq.
    apply (Game_generateTerrainWith_same Game.height (-20) 20 (-20) 20 g0
             (mkGame true true true ∅ (Some []) ∅ GRASS false));
      cbn [blocksGroupRef g0]; eauto.
  - apply Game_generateTerrainWith_group. cbn [blocksGroupRef g0]. eauto.
  - apply Game_terrain_cells. cbn [blocksGroupRef g0]. eauto.
Qed.

Lemma Part000_initScene_ready g :
  let g' := Part000.initScene true g in
  sceneRef g' = true ∧ cameraRef g' = true ∧ raycasterRef g' = true
  ∧ keysRef g' = keysRef g ∧ currentBlockType g' = currentBlockType g
  ∧ isPointerLocked g' = isPointerLocked g
  ∧ same_blocks g' Part000_mounted
  ∧ is_Some (blocksGroupRef g')
  ∧ holds_cells (terrain_block Part000.blockTypeAt Part000.height)
                (in_terrain Part000.height (-20) 20 (-20) 20) (worldRef g').
Proof.
  intros g'. unfold g', Part000.initScene, Part000.generateTerrain. cbn [negb].
  set (g0 := mkGame true true true (worldRef g) (Some []) (keysRef g)
                    (currentBlockType g) (isPointerLocked g)).
  destruct (same_controls_Part000_generateTerrainWith Part000.height (-20) 20 (-20) 20 g0)
    as (Hs & Hc & Hr & Hk & Ht & Hl).
  split; [exact Hs|]. split; [exact Hc|]. split; [exact Hr|].
  split; [exact Hk|]. split; [exact Ht|]. split; [exact Hl|].
  split; [|split].
  - rewrite Part000_mounted_eq.
    apply (Part000_generateTerrainWith_same Part000.height (-20) 20 (-20) 20 g0
             (mkGame true true true ∅ (Some []) ∅ GRASS false));
      cbn [blocksGroupRef g0]; eauto.
  - apply Part000_generateTerrainWith_group. cbn [blocksGroupRef g0]. eauto.
  - apply Part000_terrain_cells. cbn [blocksGroupRef g0]. eauto.
Qed.

(** The component with the pointer locked: ready for clicks, on the
    terrain of the mount. *)
Lemma Game_locked_ready :
  sceneRef Game_locked = true ∧ cameraRef Game_locked = true
  ∧ raycasterRef Game_locked = true ∧ isPointerLocked Game_locked = true
  ∧ currentBlockType Game_locked = GRASS
  ∧ is_Some (blocksGroupRef Game_locked)
  ∧ holds_cells (terrain_block Game.blockTypeAt Game.height)
                (in_terrain Game.height (-20) 20 (-20) 20)
                (worldRef Game_locked).
Proof.
  pose proof (Game_initScene_ready initial) as H0. cbv zeta in H0.
  change (Game.initScene true initial) with Game_mounted in H0.
  destruct H0 as (_ & _ & _ & _ & Ht & Hl & _).
  change (currentBlockType initial) with GRASS in Ht.
  change (isPointerLocked initial) with false in Hl.
  unfold Game_locked, Game_session. cbn [foldl].
  unfold Game_deliver. cbn [Game.step Game.requestPointerLock].
  assert (E : effect_reruns Game_mounted (setIsPointerLocked true Game_mounted)
              = true).
  { unfold effect_reruns. cbn [isPointerLocked setIsPointerLocked].
    by rewrite Hl. }
  rewrite E.
  pose proof (Game_initScene_ready (setIsPointerLocked true Game_mounted)) as H1.
  cbv zeta in H1.
  destruct H1 as (? & ? & ? & _ & Ht' & Hl' & _ & ? & ?).
  cbn [currentBlockType isPointerLocked setIsPointerLocked] in Ht', Hl'.
  rewrite Ht in Ht'. done.
Qed.


Lemma Game_hit_column_top_target :
  Game.newPosition (point Game_hit_column_top) (mkVector3 0 1 0)
  = mkVector3 (1 # 2) (7 # 2) (1 # 2)
  ∧ position_key (mkVector3 (1 # 2) (7 # 2) (1 # 2)) = "0.5,3.5,0.5".
Proof. split; reflexivity. Qed.

Lemma Game_locked_target_free point normal :
  worldRef Game_locked !! position_key (Game.newPosition point normal) = None.
Proof.
  destruct Game_locked_ready as (_ & _ & _ & _ & _ & _ & Hcells).
  destruct (worldRef Game_locked !! _) as [b|] eqn:E; [|done].
  apply Hcells in E as (x & y & z & _ & Hk & _).
  by apply Game_newPosition_key_fresh in Hk.
Qed.


(** * Events that run the effect again *)

Lemma same_controls_Game_handleClick button intersects g :
  same_controls g (Game.handleClick button intersects g).
Proof.
  unfold Game.handleClick.
  destruct (negb (isPointerLocked g) || negb (raycasterRef g)
            || negb (cameraRef g)
            || negb (bool_decide (is_Some (blocksGroupRef g))));
    [apply same_controls_refl|].
  destruct intersects as [|intersect _]; [apply same_controls_refl|].
  destruct (face_normal intersect) as [normal|]; [|apply same_controls_refl].
  destruct (button =? 0).
  { unfold Game.removeBlockMesh.
    destruct (worldRef g !! _); [|apply same_controls_refl].
    destruct (blocksGroupRef g); [|apply same_controls_refl].
    by destruct (find_mesh _ _). }
  destruct (button =? 2); [|apply same_controls_refl].
  case_bool_decide; [apply same_controls_refl|].
  by apply same_controls_group_add.
Qed.

Lemma same_controls_Part000_handleClick button intersects g :
  same_controls g (Part000.handleClick button intersects g).
Proof.
  unfold Part000.handleClick.
  destruct (negb (isPointerLocked g) || negb (raycasterRef g)
            || negb (cameraRef g) || negb (sceneRef g));
    [apply same_controls_refl|].
  cbv zeta. destruct (blocksGroupRef g) as [children|] eqn:Hg;
    [|apply same_controls_refl].
  destruct intersects as [|intersect _]; [apply same_controls_refl|].
  destruct (button =? 0).
  { destruct (userData_block (object intersect)) as [clickedBlock|];
      [|apply same_controls_refl].
    unfold Part000.removeBlockMesh. cbn [blocksGroupRef with_world].
    rewrite Hg. by destruct (find_mesh _ _). }
  destruct (button =? 2); [|apply same_controls_refl].
  destruct (face_normal intersect) as [normal|]; [|apply same_controls_refl].
  destruct (userData_block (object intersect)) as [clickedBlock|];
    [|apply same_controls_refl].
  case_bool_decide; [apply same_controls_refl|].
  unfold Part000.createBlockMesh. cbn [blocksGroupRef with_world].
  rewrite Hg. by apply same_controls_group_add.
Qed.

Lemma Game_deliver_cases e g :
  (Game_deliver e g = Game.step e g
   ∧ isPointerLocked (Game.step e g) = isPointerLocked g
   ∧ currentBlockType (Game.step e g) = currentBlockType g)
  ∨ (Game_deliver e g = Game.initScene true (Game.step e g)
     ∧ (isPointerLocked (Game.step e g) ≠ isPointerLocked g
        ∨ currentBlockType (Game.step e g) ≠ currentBlockType g)).
Proof.
  unfold Game_deliver, effect_reruns. cbv zeta.
  case_bool_decide as Hl; [case_bool_decide as Ht|]; cbn [andb negb]; auto.
Qed.

Lemma Part000_deliver_cases e g :
  (Part000_deliver e g = Part000.step e g
   ∧ isPointerLocked (Part000.step e g) = isPointerLocked g
   ∧ currentBlockType (Part000.step e g) = currentBlockType g)
  ∨ (Part000_deliver e g = Part000.initScene true (Part000.step e g)
     ∧ (isPointerLocked (Part000.step e g) ≠ isPointerLocked g
        ∨ currentBlockType (Part000.step e g) ≠ currentBlockType g)).
Proof.
  unfold Part000_deliver, effect_reruns. cbv zeta.
  case_bool_decide as Hl; [case_bool_decide as Ht|]; cbn [andb negb]; auto.
Qed.

Lemma terrain_or_selected_outcome classify height g g' :
  edit_outcome (currentBlockType g) (worldRef g) (worldRef g') →
  currentBlockType g' = currentBlockType g →
  terrain_or_selected classify height g →
  terrain_or_selected classify height g'.
Proof.
  intros [E|[(p & _ & E)|(p & _ & E)]] Ht H k b; rewrite E, Ht.
  - apply H.
  - intros [_ Hk]%lookup_delete_Some. by apply (H k).
  - intros [[_ <-]|[_ Hk]]%lookup_insert_Some; [by left|by apply (H k)].
Qed.

Lemma terrain_or_selected_cells classify height g :
  holds_cells (terrain_block classify height)
              (in_terrain height (-20) 20 (-20) 20) (worldRef g) →
  terrain_or_selected classify height g.
Proof.
  intros H k b Hk. apply H in Hk as (x & y & z & Hc & _ & ->).
  right. by exists x, y, z.
Qed.

Lemma worldRef_Game_handleKeyDown code g :
  same_blocks (Game.handleKeyDown code g) g.
Proof. by rewrite Game_handleKeyDown_eq. Qed.

Lemma worldRef_Part000_handleKeyDown code g :
  same_blocks (Part000.handleKeyDown code g) g.
Proof.
  unfold Part000.handleKeyDown. by destruct (Part000.blockTypeMap code).
Qed.

Lemma terrain_or_selected_Game_deliver e g :
  terrain_or_selected Game.blockTypeAt Game.height g →
  terrain_or_selected Game.blockTypeAt Game.height (Game_deliver e g).
Proof.
  intros H.
  destruct (Game_deliver_cases e g) as [(-> & _ & Ht)|[-> _]];
    [|apply terrain_or_selected_cells, Game_initScene_ready].
  destruct e as [[]|button intersects|code|code|mounted|locked].
  - apply terrain_or_selected_cells, Game_initScene_ready.
  - exact H.
  - apply (terrain_or_selected_outcome _ _ g); [|done..].
    apply Game_handleClick_outcome.
  - intros k b. rewrite Ht. cbn [Game.step].
    rewrite (proj1 (worldRef_Game_handleKeyDown code g)). apply H.
  - exact H.
  - intros k b. rewrite Ht. cbn [Game.step]. unfold Game.requestPointerLock.
    destruct mounted; apply H.
  - intros k b. rewrite Ht. apply H.
Qed.

Lemma terrain_or_selected_Part000_deliver e g :
  terrain_or_selected Part000.blockTypeAt Part000.height g →
  terrain_or_selected Part000.blockTypeAt Part000.height (Part000_deliver e g).
Proof.
  intros H.
  destruct (Part000_deliver_cases e g) as [(-> & _ & Ht)|[-> _]];
    [|apply terrain_or_selected_cells, Part000_initScene_ready].
  destruct e as [[]|button intersects|code|code|mounted rejected|locked].
  - apply terrain_or_selected_cells, Part000_initScene_ready.
  - exact H.
  - apply (terrain_or_selected_outcome _ _ g); [|done..].
    apply Part000_handleClick_outcome.
  - intros k b. rewrite Ht. cbn [Part000.step].
    rewrite (proj1 (worldRef_Part000_handleKeyDown code g)). apply H.
  - exact H.
  - intros k b. rewrite Ht. cbn [Part000.step].
    unfold Part000.requestPointerLock.
    destruct (mounted && rejected); apply H.
  - intros k b. rewrite Ht. apply H.
Qed.

(** X10 — Events that run the effect again. An event whose handler changes
    [isPointerLocked] or [currentBlockType] makes React run the effect
    again, and [initScene] then regenerates the terrain: world and meshes
    are those of the first mount and every block placed or removed before
    is forgotten; an event that changes neither is the handler alone. So a
    click never runs the effect, and without the pointer lock it changes
    nothing; a key press leaves the world and the meshes when the selected
    type stays and resets them when it changes. Hence in every session each
    stored block is a block of the generated terrain or has the type
    selected now: a world never holds placed blocks of two types. Both
    variants. *)
Theorem X10_effect_runs_again :
  (∀ e g,
     let g1 := Game.step e g in
     (isPointerLocked g1 = isPointerLocked g →
      currentBlockType g1 = currentBlockType g → Game_deliver e g = g1)
     ∧ (isPointerLocked g1 ≠ isPointerLocked g
        ∨ currentBlockType g1 ≠ currentBlockType g →
        Game_deliver e g = Game.initScene true g1
        ∧ same_blocks (Game_deliver e g) Game_mounted))
  ∧
  (∀ e g,
     let g1 := Part000.step e g in
     (isPointerLocked g1 = isPointerLocked g →
      currentBlockType g1 = currentBlockType g → Part000_deliver e g = g1)
     ∧ (isPointerLocked g1 ≠ isPointerLocked g
        ∨ currentBlockType g1 ≠ currentBlockType g →
        Part000_deliver e g = Part000.initScene true g1
        ∧ same_blocks (Part000_deliver e g) Part000_mounted))
  ∧
  (∀ button intersects g,
     Game_deliver (Game.MouseDown button intersects) g
     = Game.handleClick button intersects g
     ∧ Part000_deliver (Part000.MouseDown button intersects) g
       = Part000.handleClick button intersects g
     ∧ (isPointerLocked g = false →
        Game_deliver (Game.MouseDown button intersects) g = g
        ∧ Part000_deliver (Part000.MouseDown button intersects) g = g))
  ∧
  (∀ code g,
     let g' := Game_deliver (Game.KeyDown code) g in
     (currentBlockType g' = currentBlockType g → same_blocks g' g)
     ∧ (currentBlockType g' ≠ currentBlockType g → same_blocks g' Game_mounted))
  ∧
  (∀ code g,
     let g' := Part000_deliver (Part000.KeyDown code) g in
     (currentBlockType g' = currentBlockType g → same_blocks g' g)
     ∧ (currentBlockType g' ≠ currentBlockType g →
        same_blocks g' Part000_mounted))
  ∧
  (∀ events,
     terrain_or_selected Game.blockTypeAt Game.height (Game_session events))
  ∧
  (∀ events,
     terrain_or_selected Part000.blockTypeAt Part000.height
                         (Part000_session events)).
Proof.
  assert (HG : ∀ e g,
    let g1 := Game.step e g in
    (isPointerLocked g1 = isPointerLocked g →
     currentBlockType g1 = currentBlockType g → Game_deliver e g = g1)
    ∧ (isPointerLocked g1 ≠ isPointerLocked g
       ∨ currentBlockType g1 ≠ currentBlockType g →
       Game_deliver e g = Game.initScene true g1
       ∧ same_blocks (Game_deliver e g) Game_mounted)).
  { intros e g g1. unfold g1.
    destruct (Game_deliver_cases e g) as [(E & Hl & Ht)|[E H]]; split.
    - done.
    - intros [?|?]; done.
    - intros Hl Ht. by destruct H.
    - intros _. split; [done|]. rewrite E. apply Game_initScene_ready. }
  assert (HP : ∀ e g,
    let g1 := Part000.step e g in
    (isPointerLocked g1 = isPointerLocked g →
     currentBlockType g1 = currentBlockType g → Part000_deliver e g = g1)
    ∧ (isPointerLocked g1 ≠ isPointerLocked g
       ∨ currentBlockType g1 ≠ currentBlockType g →
       Part000_deliver e g = Part000.initScene true g1
       ∧ same_blocks (Part000_deliver e g) Part000_mounted)).
  { intros e g g1. unfold g1.
    destruct (Part000_deliver_cases e g) as [(E & Hl & Ht)|[E H]]; split.
    - done.
    - intros [?|?]; done.
    - intros Hl Ht. by destruct H.
    - intros _. split; [done|]. rewrite E. apply Part000_initScene_ready. }
  assert (HcG : ∀ button intersects g,
    Game_deliver (Game.MouseDown button intersects) g
    = Game.handleClick button intersects g).
  { intros. apply (HG (Game.MouseDown button intersects));
      apply same_controls_Game_handleClick. }
  assert (HcP : ∀ button intersects g,
    Part000_deliver (Part000.MouseDown button intersects) g
    = Part000.handleClick button intersects g).
  { intros. apply (HP (Part000.MouseDown button intersects));
      apply same_controls_Part000_handleClick. }
  split; [exact HG|]. split; [exact HP|]. split; [|split; [|split; [|split]]].
  - intros button intersects g. split; [apply HcG|]. split; [apply HcP|].
    intros Hl. rewrite HcG, HcP.
    unfold Game.handleClick, Part000.handleClick. by rewrite Hl.
  - intros code g g'. unfold g'.
    destruct (Game_deliver_cases (Game.KeyDown code) g)
      as [(-> & _ & Ht)|[E [Hl|Ht]]].
    + split; [intros _; apply worldRef_Game_handleKeyDown|done].
    + destruct Hl. cbn [Game.step]. by rewrite Game_handleKeyDown_eq.
    + rewrite E.
      destruct (Game_initScene_ready (Game.step (Game.KeyDown code) g))
        as (_ & _ & _ & _ & Ht' & _ & Hb & _).
      split; [|done]. intros Hc. destruct Ht. by rewrite <- Ht'.
  - intros code g g'. unfold g'.
    destruct (Part000_deliver_cases (Part000.KeyDown code) g)
      as [(-> & _ & Ht)|[E [Hl|Ht]]].
    + split; [intros _; apply worldRef_Part000_handleKeyDown|done].
    + destruct Hl. cbn [Part000.step]. unfold Part000.handleKeyDown.
      by destruct (Part000.blockTypeMap code).
    + rewrite E.
      destruct (Part000_initScene_ready (Part000.step (Part000.KeyDown code) g))
        as (_ & _ & _ & _ & Ht' & _ & Hb & _).
      split; [|done]. intros Hc. destruct Ht. by rewrite <- Ht'.
  - intros events. unfold Game_session.
    induction events as [|e events IH] using rev_ind.
    + apply terrain_or_selected_cells. cbn [foldl].
      unfold Game_mounted. cbn [Game.step]. apply Game_initScene_ready.
    + rewrite foldl_app. cbn [foldl].
      by apply terrain_or_selected_Game_deliver.
  - intros events. unfold Part000_session.
    induction events as [|e events IH] using rev_ind.
    + apply terrain_or_selected_cells. cbn [foldl].
      unfold Part000_mounted. cbn [Part000.step]. apply Part000_initScene_ready.
    + rewrite foldl_app. cbn [foldl].
      by apply terrain_or_selected_Part000_deliver.
Qed.

Lemma controls_Game_deliver e g :
  keysRef (Game_deliver e g) = keysRef (Game.step e g)
  ∧ currentBlockType (Game_deliver e g) = currentBlockType (Game.step e g)
  ∧ isPointerLocked (Game_deliver e g) = isPointerLocked (Game.step e g).
Proof.
  destruct (Game_deliver_cases e g) as [(-> & _ & _)|[-> _]]; [done|].
  destruct (Game_initScene_ready (Game.step e g))
    as (_ & _ & _ & Hk & Ht & Hl & _).
  done.
Qed.

Lemma Game_locked_keys : keysRef Game_locked = ∅.
Proof.
  unfold Game_locked, Game_session. cbn [foldl].
  rewrite (proj1 (controls_Game_deliver _ _)).
  cbn [Game.step Game.requestPointerLock keysRef setIsPointerLocked].
  rewrite Game_mounted_eq.
  by destruct (same_controls_Game_generateTerrainWith Game.height (-20) 20
                 (-20) 20 (mkGame true true true ∅ (Some []) ∅ GRASS false))
    as (_ & _ & _ & -> & _).
Qed.

Lemma X10_effect_runs_again_witness :
  worldRef (Game_session [Game.OverlayClick true;
                          Game.MouseDown 2 [Game_hit_column_top]])
    !! "0.5,3.5,0.5"
  = Some (mkBlock GRASS (mkVector3 (1 # 2) (7 # 2) (1 # 2)))
  ∧ same_blocks
      (Game_session [Game.OverlayClick true;
                     Game.MouseDown 2 [Game_hit_column_top];
                     Game.KeyDown "Digit2"])
      Game_mounted.
Proof.
  unfold Game_session. cbn [foldl].
  change (Game_deliver (Game.OverlayClick true) Game_mounted) with Game_locked.
  destruct Game_locked_ready as (_ & Hc & Hr & Hl & Ht & Hg & _).
  destruct Game_hit_column_top_target as [Hp Hk].
  destruct (proj1 (proj2 (proj2 X10_effect_runs_again)) 2
              [Game_hit_column_top] Game_locked) as (-> & _).
  set (g := Game.handleClick 2 [Game_hit_column_top] Game_locked).
  destruct (same_controls_Game_handleClick 2 [Game_hit_column_top] Game_locked)
    as (_ & _ & _ & Hkeys & Htype & _).
  fold g in Hkeys, Htype. rewrite Game_locked_keys in Hkeys.
  rewrite Ht in Htype.
  split.
  - unfold g.
    rewrite (Game_place_free Game_locked Game_hit_column_top []
               (mkVector3 0 1 0) Hl Hr Hc Hg eq_refl
               (Game_locked_target_free _ _)).
    rewrite Hp, Hk, Ht. apply lookup_insert_eq.
  - apply (proj1 (proj2 (proj2 (proj2 X10_effect_runs_again))) "Digit2" g).
    rewrite (proj1 (proj2 (controls_Game_deliver _ _))). cbn [Game.step].
    rewrite Game_handleKeyDown_eq. cbv zeta. cbn [currentBlockType].
    rewrite Hkeys, Htype. vm_compute. discriminate.
Defined.

(** * Movement *)

(** Products and sums with a zero operand, read off the specification of
    the binary64 operations. *)

Lemma float_same_refl a : float_same a a.
Proof. by left. Qed.

Lemma float_same_sym a b : float_same a b → float_same b a.
Proof. intros [->|[? ?]]; [by left|by right]. Qed.

Lemma float_same_trans a b c :
  float_same a b → float_same b c → float_same a c.
Proof.
  intros [->|[Ha Hb]] [->|[Hb' Hc]]; [by left|by right|by right|by right].
Qed.

Lemma float_same_SameValueZero a b :
  float_same a b → SameValueZero a b = true.
Proof.
  unfold SameValueZero, PrimFloat.is_nan.
  intros [->|[[s Ha] [s' Hb]]].
  - by destruct (b =? b)%float.
  - by rewrite FloatAxioms.eqb_spec, Ha, Hb.
Qed.

Lemma float_finite_cases a :
  PrimFloat.is_finite a = true →
  (∃ s, Prim2SF a = S754_zero s) ∨ (∃ s m e, Prim2SF a = S754_finite s m e).
Proof.
  unfold PrimFloat.is_finite, PrimFloat.is_nan, PrimFloat.is_infinity.
  rewrite !FloatAxioms.eqb_spec, FloatAxioms.abs_spec.
  destruct (Prim2SF a) as [s|s| |s m e]; [eauto| | |eauto 10].
  - intros H. destruct s; vm_compute in H; discriminate.
  - intros H. vm_compute in H. discriminate.
Qed.

Lemma float_mul_zero_r a :
  PrimFloat.is_finite a = true → float_zero (a * 0)%float.
Proof.
  intros [[s H]|(s & m & e & H)]%float_finite_cases; unfold float_zero;
    rewrite FloatAxioms.mul_spec, H; by eexists.
Qed.

Lemma float_sub_zero a b : float_zero a → float_zero b → float_zero (a - b)%float.
Proof.
  intros [s Ha] [s' Hb]. unfold float_zero. rewrite FloatAxioms.sub_spec, Ha, Hb.
  destruct s, s'; by eexists.
Qed.

Lemma float_mul_speed a :
  float_zero a → float_zero (a * 0.1)%float ∧ float_zero (a * - 0.1)%float.
Proof.
  intros [s Ha]. unfold float_zero. rewrite !FloatAxioms.mul_spec, Ha.
  split; by eexists.
Qed.

Lemma float_add_zero y z : float_zero z → float_same (y + z)%float y.
Proof.
  intros [s Hz]. unfold float_same, float_zero.
  destruct (Prim2SF y) as [sy| sy| |sy m e] eqn:Hy.
  - right. rewrite FloatAxioms.add_spec, Hy, Hz. split; [|eauto].
    destruct sy, s; by eexists.
  - left. apply FloatAxioms.Prim2SF_inj. by rewrite FloatAxioms.add_spec, Hy, Hz.
  - left. apply FloatAxioms.Prim2SF_inj. by rewrite FloatAxioms.add_spec, Hy, Hz.
  - left. apply FloatAxioms.Prim2SF_inj. by rewrite FloatAxioms.add_spec, Hy, Hz.
Qed.

Lemma float_same_add a b c : float_same a b → float_same (a + c)%float (b + c)%float.
Proof.
  intros [->|[[s Ha] [s' Hb]]]; [by left|].
  unfold float_same, float_zero.
  destruct (Prim2SF c) as [sc| sc| |sc m e] eqn:Hc.
  - right. rewrite !FloatAxioms.add_spec, Ha, Hb, Hc.
    split; [destruct s, sc|destruct s', sc]; by eexists.
  - left. apply FloatAxioms.Prim2SF_inj. by rewrite !FloatAxioms.add_spec, Ha, Hb, Hc.
  - left. apply FloatAxioms.Prim2SF_inj. by rewrite !FloatAxioms.add_spec, Ha, Hb, Hc.
  - left. apply FloatAxioms.Prim2SF_inj. by rewrite !FloatAxioms.add_spec, Ha, Hb, Hc.
Qed.

Lemma float_same_sub a b c : float_same a b → float_same (a - c)%float (b - c)%float.
Proof.
  intros [->|[[s Ha] [s' Hb]]]; [by left|].
  unfold float_same, float_zero.
  destruct (Prim2SF c) as [sc| sc| |sc m e] eqn:Hc.
  - right. rewrite !FloatAxioms.sub_spec, Ha, Hb, Hc.
    split; [destruct s, sc|destruct s', sc]; by eexists.
  - left. apply FloatAxioms.Prim2SF_inj. by rewrite !FloatAxioms.sub_spec, Ha, Hb, Hc.
  - left. apply FloatAxioms.Prim2SF_inj. by rewrite !FloatAxioms.sub_spec, Ha, Hb, Hc.
  - left. apply FloatAxioms.Prim2SF_inj. by rewrite !FloatAxioms.sub_spec, Ha, Hb, Hc.
Qed.

Lemma updatePlayerMovement_stages dir g camera :
  updatePlayerMovement dir g camera
  = if negb (cameraRef g) then camera
    else
      move_vertical (key_held "Space" g) (key_held "ShiftLeft" g)
        (move_strafe dir (key_held "KeyA" g) (key_held "KeyD" g)
           (move_forward dir (key_held "KeyW" g) (key_held "KeyS" g) camera)).
Proof. reflexivity. Qed.

Lemma move_forward_up dir w s camera :
  camera_up (move_forward dir w s camera) = camera_up camera.
Proof. by destruct w, s. Qed.

Lemma move_strafe_up dir a d camera :
  camera_up (move_strafe dir a d camera) = camera_up camera.
Proof. by destruct a, d. Qed.

Lemma move_vertical_up up down camera :
  camera_up (move_vertical up down camera) = camera_up camera.
Proof. by destruct up, down. Qed.

Lemma move_vertical_xz up down camera :
  fx (camera_position (move_vertical up down camera))
  = fx (camera_position camera)
  ∧ fz (camera_position (move_vertical up down camera))
    = fz (camera_position camera).
Proof. by destruct up, down. Qed.

Lemma move_vertical_same up down c c' :
  float_same (fy (camera_position c)) (fy (camera_position c')) →
  float_same (fy (camera_position (move_vertical up down c)))
             (fy (camera_position (move_vertical up down c'))).
Proof.
  intros H. destruct up, down; cbn;
    auto using float_same_add, float_same_sub.
Qed.

(** The height component of the strafe vector is a zero. *)
Lemma strafe_height_zero dir :
  PrimFloat.is_finite (fx dir) = true → PrimFloat.is_finite (fz dir) = true →
  float_zero (fy (Vec3f_cross dir (mkVec3f 0 1 0))).
Proof.
  intros Hx Hz. cbn. by apply float_sub_zero; apply float_mul_zero_r.
Qed.

Lemma move_strafe_height dir a d camera :
  camera_up camera = mkVec3f 0 1 0 →
  PrimFloat.is_finite (fx dir) = true → PrimFloat.is_finite (fz dir) = true →
  float_same (fy (camera_position (move_strafe dir a d camera)))
             (fy (camera_position camera)).
Proof.
  intros Hup Hx Hz.
  pose proof (strafe_height_zero dir Hx Hz) as H0.
  destruct (float_mul_speed _ H0) as [Hp Hn].
  unfold move_strafe. destruct a, d; cbn; rewrite ?Hup.
  - eapply float_same_trans; [by apply float_add_zero|].
    by apply float_add_zero.
  - by apply float_add_zero.
  - by apply float_add_zero.
  - apply float_same_refl.
Qed.

(** X6 — One tick of movement, in binary64 arithmetic. Without a camera,
    or with none of the six keys held, the tick leaves the camera where it
    is; it never changes the up vector. The x and z coordinates after the
    tick depend on [KeyW], [KeyS], [KeyA] and [KeyD] only: [Space] and
    [ShiftLeft] move the height alone. With the up vector [(0, 1, 0)] and
    a world direction whose x and z are finite, the height after the tick
    depends on [KeyW], [KeyS], [Space] and [ShiftLeft] only: strafing with
    [KeyA] and [KeyD] never changes it as a number. Opposite keys need not
    cancel: with [Space] and [ShiftLeft] both held and no other key, a
    camera at height 0.3 ends the tick at 0.30000000000000004. *)
Theorem X6_movement_tick :
  (∀ dir g camera,
     cameraRef g = false
     ∨ (key_held "KeyW" g = false ∧ key_held "KeyS" g = false
        ∧ key_held "KeyA" g = false ∧ key_held "KeyD" g = false
        ∧ key_held "Space" g = false ∧ key_held "ShiftLeft" g = false) →
     updatePlayerMovement dir g camera = camera)
  ∧
  (∀ dir g camera,
     camera_up (updatePlayerMovement dir g camera) = camera_up camera)
  ∧
  (∀ dir g g' camera,
     cameraRef g' = cameraRef g →
     key_held "KeyW" g' = key_held "KeyW" g →
     key_held "KeyS" g' = key_held "KeyS" g →
     key_held "KeyA" g' = key_held "KeyA" g →
     key_held "KeyD" g' = key_held "KeyD" g →
     fx (camera_position (updatePlayerMovement dir g' camera))
     = fx (camera_position (updatePlayerMovement dir g camera))
     ∧ fz (camera_position (updatePlayerMovement dir g' camera))
       = fz (camera_position (updatePlayerMovement dir g camera)))
  ∧
  (∀ dir g g' camera,
     camera_up camera = mkVec3f 0 1 0 →
     PrimFloat.is_finite (fx dir) = true →
     PrimFloat.is_finite (fz dir) = true →
     cameraRef g' = cameraRef g →
     key_held "KeyW" g' = key_held "KeyW" g →
     key_held "KeyS" g' = key_held "KeyS" g →
     key_held "Space" g' = key_held "Space" g →
     key_held "ShiftLeft" g' = key_held "ShiftLeft" g →
     SameValueZero
       (fy (camera_position (updatePlayerMovement dir g' camera)))
       (fy (camera_position (updatePlayerMovement dir g camera))) = true)
  ∧
  (∀ dir g camera,
     cameraRef g = true →
     key_held "KeyW" g = false → key_held "KeyS" g = false →
     key_held "KeyA" g = false → key_held "KeyD" g = false →
     key_held "Space" g = true → key_held "ShiftLeft" g = true →
     fy (camera_position camera) = 0.3%float →
     fy (camera_position (updatePlayerMovement dir g camera))
     = 0.30000000000000004%float).
Proof.
  split; [|split; [|split; [|split]]].
  - intros dir g camera [Hc|(HW & HS & HA & HD & HSp & HSh)];
      rewrite updatePlayerMovement_stages.
    + by rewrite Hc.
    + rewrite HW, HS, HA, HD, HSp, HSh. by destruct (negb (cameraRef g)).
  - intros dir g camera. rewrite updatePlayerMovement_stages.
    destruct (negb (cameraRef g)); [done|].
    by rewrite move_vertical_up, move_strafe_up, move_forward_up.
  - intros dir g g' camera Hc HW HS HA HD.
    rewrite !updatePlayerMovement_stages, Hc, HW, HS, HA, HD.
    destruct (negb (cameraRef g)); [done|].
    destruct (move_vertical_xz (key_held "Space" g') (key_held "ShiftLeft" g')
      (move_strafe dir (key_held "KeyA" g) (key_held "KeyD" g)
         (move_forward dir (key_held "KeyW" g) (key_held "KeyS" g) camera)))
      as [-> ->].
    destruct (move_vertical_xz (key_held "Space" g) (key_held "ShiftLeft" g)
      (move_strafe dir (key_held "KeyA" g) (key_held "KeyD" g)
         (move_forward dir (key_held "KeyW" g) (key_held "KeyS" g) camera)))
      as [-> ->].
    done.
  - intros dir g g' camera Hup Hx Hz Hc HW HS HSp HSh.
    apply float_same_SameValueZero.
    rewrite !updatePlayerMovement_stages, Hc, HW, HS, HSp, HSh.
    destruct (negb (cameraRef g)); [apply float_same_refl|].
    apply move_vertical_same.
    set (c := move_forward dir (key_held "KeyW" g) (key_held "KeyS" g) camera).
    assert (Hc' : camera_up c = mkVec3f 0 1 0)
      by (unfold c; by rewrite move_forward_up).
    eapply float_same_trans; [by apply move_strafe_height|].
    apply float_same_sym. by apply move_strafe_height.
  - intros dir g [[x y z] up] Hc HW HS HA HD HSp HSh Hy.
    cbn [camera_position fy] in Hy. subst y.
    rewrite updatePlayerMovement_stages, Hc, HW, HS, HA, HD, HSp, HSh.
    reflexivity.
Qed.

Lemma X6_movement_tick_witness :
  SameValueZero
    (fy (camera_position
           (updatePlayerMovement direction_default
              (Game.handleKeyDown "KeyD" scene_ready) camera_default)))
    (fy (camera_position
           (updatePlayerMovement direction_default scene_ready
              camera_default)))
  = true.
Proof.
  apply (proj1 (proj2 (proj2 (proj2 X6_movement_tick)))); reflexivity.
Defined.

(** * Orientation across runs of the effect *)

Lemma handleMouseMove_handled dx dy l :
  shows_pose (handleMouseMove true true dx dy l).
Proof. done. Qed.

Lemma handleMouseMove_discarded locked camera dx dy l :
  locked = false ∨ camera = false → handleMouseMove locked camera dx dy l = l.
Proof. unfold handleMouseMove. by intros [-> | ->]; rewrite ?orb_true_r. Qed.

Lemma Look_step_pose e l :
  (shows_pose l ∨ new_camera l) →
  shows_pose (Look_step e l) ∨ new_camera (Look_step e l).
Proof.
  intros H. destruct e as [[locked camera dx dy]|]; [|by right].
  cbn [Look_step mm_locked mm_camera movementX movementY].
  destruct locked, camera; [by left|by rewrite handleMouseMove_discarded; auto..].
Qed.

Lemma look_after_mouseRef moves l l' :
  mouseRef l = mouseRef l' →
  mouseRef (look_after moves l) = mouseRef (look_after moves l').
Proof.
  revert l l'. induction moves as [|move moves IH]; intros l l' H; [done|].
  apply IH. unfold handleMouseMove.
  destruct (negb (mm_locked move) || negb (mm_camera move)); [done|].
  cbn [mouseRef]. by rewrite H.
Qed.

(** X7 — Pose and camera across runs of the effect. The pose [mouseRef]
    is never reset: after any run of pointer events and scene
    initialisations it is what the pointer events alone make it. The
    camera either shows the pose (its y and x rotations are yaw and pitch)
    or is a new camera with rotation zero; it shows the pose right after
    every handled pointer event and is new right after every
    initialisation, which keeps the pose. So the first handled pointer
    event after an initialisation turns the new camera to the old pose
    moved by the event, exactly as if the scene had not been initialised
    again. Pointer events that arrive without the lock or without a camera
    are discarded. *)
Theorem X7_pose_and_camera :
  (∀ events l,
     mouseRef (Look_run events l)
     = mouseRef (look_after (pointer_moves events) l))
  ∧
  (∀ events,
     shows_pose (Look_run events Look_initial)
     ∨ new_camera (Look_run events Look_initial))
  ∧
  (∀ events l move,
     mm_locked move = true → mm_camera move = true →
     shows_pose (Look_run (events ++ [Pointer move]) l))
  ∧
  (∀ events l,
     new_camera (Look_run (events ++ [SceneInit]) l)
     ∧ mouseRef (Look_run (events ++ [SceneInit]) l)
       = mouseRef (Look_run events l))
  ∧
  (∀ l move,
     mm_locked move = true → mm_camera move = true →
     Look_step (Pointer move) (Look_initScene l) = Look_step (Pointer move) l)
  ∧
  (∀ moves l,
     Forall (λ move, mm_locked move = false ∨ mm_camera move = false) moves →
     Look_run (Pointer <$> moves) l = l).
Proof.
  split; [|split; [|split; [|split; [|split]]]].
  - intros events. induction events as [|e events IH]; intros l; [done|].
    change (Look_run (e :: events) l) with (Look_run events (Look_step e l)).
    rewrite IH. destruct e as [move|]; [done|].
    by apply look_after_mouseRef.
  - intros events. unfold Look_run.
    induction events as [|e events IH] using rev_ind; [by left|].
    rewrite foldl_app. cbn [foldl]. by apply Look_step_pose.
  - intros events l [locked camera dx dy] Hl Hc. cbn in Hl, Hc. subst.
    unfold Look_run. rewrite foldl_app. done.
  - intros events l. unfold Look_run. rewrite foldl_app. done.
  - intros l [locked camera dx dy] Hl Hc. cbn in Hl, Hc. by subst.
  - intros moves l H. unfold Look_run. revert l.
    induction H as [|move moves Hm _ IH]; intros l; [done|].
    rewrite fmap_cons. cbn [foldl Look_step].
    rewrite handleMouseMove_discarded by done. apply IH.
Qed.

Lemma X7_pose_and_camera_witness :
  Look_step (Pointer (mkMouseMove true true 5 7))
    (Look_initScene
       (Look_run [Pointer (mkMouseMove true true 500 0)] Look_initial))
  = Look_step (Pointer (mkMouseMove true true 5 7))
      (Look_run [Pointer (mkMouseMove true true 500 0)] Look_initial).
Proof.
  apply (proj1 (proj2 (proj2 (proj2 (proj2 X7_pose_and_camera)))));
    reflexivity.
Defined.
